(** * beartype: union type-checking code factory, configuration cache and
      attribute validators

    A shallow embedding of three parts of the repository:

    - [beartype/_conf/confcls.py]: the self-caching [BeartypeConf.__new__];
    - [beartype/_check/code/pep/codepep484604.py]: the union flattening getter
      and the union code factory;
    - [beartype/vale/_valeisobj.py]: the [IsAttr] validator factory.

    The embedding comes first, one module per source file; the facts
    about it follow. *)

From Stdlib Require Import List String Ascii Bool Arith ZArith Lia.
Import ListNotations.
Open Scope string_scope.
Open Scope list_scope.

Set Warnings "-register-all".

(* ===================================================================== *)
(** * Results of calls that may raise *)
(* ===================================================================== *)

(** Exceptions raised by the embedded code, by class. *)
Inductive exn : Type :=
  | AssertionError
  | AttributeError
  | BeartypeConfException
  | BeartypeConfShellVarException
  | BeartypeValeSubscriptionException
  | OtherException (name : string).

(** A Python call either returns a value or raises. *)
Inductive outcome (A : Type) : Type :=
  | Returned (a : A)
  | Raised (e : exn).
Arguments Returned {A} a.
Arguments Raised {A} e.

(* ===================================================================== *)
(** * [beartype/_conf/confcls.py] *)
(* ===================================================================== *)

Module Conf.

(** [beartype._conf.confenum.BeartypeStrategy] members. *)
Inductive BeartypeStrategy : Type := O0 | O1 | Ologn | On.

(** Objects a caller can pass as a keyword parameter of [BeartypeConf].
    A class carries its name and whether it is a [Warning] subclass, which
    is all [is_type_subclass(..., Warning)] asks of it. *)
Inductive pyval : Type :=
  | VNone
  | VBool (b : bool)
  | VInt (z : Z)
  | VStr (s : string)
  | VStrategy (s : BeartypeStrategy)
  | VClass (name : string) (is_warning : bool).

(** The private fake warning category that is the default of
    [warning_cls_on_decorator_exception]. *)
Definition _BeartypeConfReduceDecoratorExceptionToWarningDefault : pyval :=
  VClass "_BeartypeConfReduceDecoratorExceptionToWarningDefault" true.

Definition BeartypeStrategy_eqb (a b : BeartypeStrategy) : bool :=
  match a, b with
  | O0, O0 | O1, O1 | Ologn, Ologn | On, On => true
  | _, _ => false
  end.

Definition Z_of_bool (b : bool) : Z := if b then 1%Z else 0%Z.

(** Python's [==] on these objects, as the dictionary lookup applies it to
    the items of a key: [bool] is a subclass of [int], so [True == 1] and
    [False == 0] (and their hashes agree). *)
Definition py_eq (a b : pyval) : bool :=
  match a, b with
  | VNone, VNone => true
  | VBool x, VBool y => Bool.eqb x y
  | VInt x, VInt y => Z.eqb x y
  | VBool x, VInt y => Z.eqb (Z_of_bool x) y
  | VInt x, VBool y => Z.eqb x (Z_of_bool y)
  | VStr x, VStr y => String.eqb x y
  | VStrategy x, VStrategy y => BeartypeStrategy_eqb x y
  | VClass x _, VClass y _ => String.eqb x y
  | _, _ => false
  end.

(** The identity test [a is b] on classes: classes are identified by name. *)
Definition py_is_class (a b : pyval) : bool :=
  match a, b with
  | VClass x _, VClass y _ => String.eqb x y
  | _, _ => false
  end.

(** The tuple [conf_args] built at the top of [__new__], in its order. *)
Record ConfArgs : Type := mkConfArgs {
  arg_claw_is_pep526 : pyval;
  arg_is_color : pyval;
  arg_is_debug : pyval;
  arg_is_pep484_tower : pyval;
  arg_strategy : pyval;
  arg_warning_cls_on_decorator_exception : pyval
}.

(** Tuple equality: item by item. *)
Definition conf_args_eq (a b : ConfArgs) : bool :=
  py_eq (arg_claw_is_pep526 a) (arg_claw_is_pep526 b) &&
  py_eq (arg_is_color a) (arg_is_color b) &&
  py_eq (arg_is_debug a) (arg_is_debug b) &&
  py_eq (arg_is_pep484_tower a) (arg_is_pep484_tower b) &&
  py_eq (arg_strategy a) (arg_strategy b) &&
  py_eq (arg_warning_cls_on_decorator_exception a)
        (arg_warning_cls_on_decorator_exception b).

(** The slots of a [BeartypeConf] instance. *)
Record BeartypeConf : Type := mkBeartypeConf {
  _claw_is_pep526 : pyval;
  _conf_args : ConfArgs;
  _conf_kwargs : list (string * pyval);
  _is_color : pyval;
  _is_debug : pyval;
  _is_pep484_tower : pyval;
  _is_warning_cls_on_decorator_exception_set : bool;
  _warning_cls_on_decorator_exception : pyval;
  _strategy : pyval
}.


(** A reference to a configuration object: its position in the heap. *)
Definition ref : Type := nat.

(** What a call of [__new__] does that another thread or the allocator can
    see, in order. *)
Inductive event : Type :=
  | LockEnter
  | LockExit
  | Allocate.

(** The process state [__new__] works on: the [beartype_conf_args_to_conf]
    dictionary (most recent entry first), the configurations built so far
    and the log of events. *)
Record World : Type := mkWorld {
  beartype_conf_args_to_conf : list (ConfArgs * ref);
  heap : list BeartypeConf;
  trace : list event
}.

Definition World_empty : World :=
  {| beartype_conf_args_to_conf := []; heap := []; trace := [] |}.

(** [conf_args in d] and [d[conf_args]]: the entry whose key equals the
    tuple. *)
Fixpoint dict_get (d : list (ConfArgs * ref)) (k : ConfArgs) : option ref :=
  match d with
  | [] => None
  | (k', r) :: d' => if conf_args_eq k' k then Some r else dict_get d' k
  end.

(** [SHELL_VAR_CONF_IS_COLOR_VALUE_TO_OBJ] is declared in
    [beartype._data.os.dataosshell]; the docstring of [__new__] gives its
    keys: the strings "True", "False" and "None". *)
Definition SHELL_VAR_CONF_IS_COLOR_VALUE_TO_OBJ : list (string * pyval) :=
  [("True", VBool true); ("False", VBool false); ("None", VNone)].

Fixpoint assoc_get {V : Type} (d : list (string * V)) (k : string)
  : option V :=
  match d with
  | [] => None
  | (k', v) :: d' => if String.eqb k' k then Some v else assoc_get d' k
  end.

Definition isinstance_bool (v : pyval) : bool :=
  match v with VBool _ => true | _ => false end.

(** [isinstance(v, NoneTypeOr[bool])]. *)
Definition isinstance_NoneTypeOr_bool (v : pyval) : bool :=
  match v with VNone | VBool _ => true | _ => false end.

Definition isinstance_BeartypeStrategy (v : pyval) : bool :=
  match v with VStrategy _ => true | _ => false end.

(** [v is None or is_type_subclass(v, Warning)]. *)
Definition is_none_or_warning_cls (v : pyval) : bool :=
  match v with
  | VNone => true
  | VClass _ is_warning => is_warning
  | _ => false
  end.

(** The [elif] chain that validates the parameters, in source order; [None]
    when every parameter is valid. *)
Definition validate (a : ConfArgs) : option exn :=
  if negb (isinstance_bool (arg_claw_is_pep526 a))
  then Some BeartypeConfException
  else if negb (isinstance_NoneTypeOr_bool (arg_is_color a))
  then Some BeartypeConfException
  else if negb (isinstance_bool (arg_is_debug a))
  then Some BeartypeConfException
  else if negb (isinstance_bool (arg_is_pep484_tower a))
  then Some BeartypeConfException
  else if negb (is_none_or_warning_cls
                  (arg_warning_cls_on_decorator_exception a))
  then Some BeartypeConfException
  else if negb (isinstance_BeartypeStrategy (arg_strategy a))
  then Some BeartypeConfException
  else None.

Definition log (e : event) (w : World) : World :=
  {| beartype_conf_args_to_conf := beartype_conf_args_to_conf w;
     heap := heap w;
     trace := trace w ++ [e] |}.

(** The body of [with beartype_conf_lock:]. [shell] is what
    [get_shell_var_value_or_none(SHELL_VAR_CONF_IS_COLOR_NAME)] returns
    during the call. *)
Definition BeartypeConf___new___locked
  (conf_args : ConfArgs) (shell : option string) (w : World)
  : outcome ref * World :=
  match dict_get (beartype_conf_args_to_conf w) conf_args with
  | Some r => (Returned r, w)
  | None =>
    match validate conf_args with
    | Some e => (Raised e, w)
    | None =>
      (* self = super().__new__(cls) *)
      let w := log Allocate w in
      let warning_cls := arg_warning_cls_on_decorator_exception conf_args in
      let is_default :=
        py_is_class warning_cls
          _BeartypeConfReduceDecoratorExceptionToWarningDefault in
      let is_set := negb is_default in
      let warning_cls := if is_default then VNone else warning_cls in
      let is_color_or_exn :=
        match shell with
        | None => Returned (arg_is_color conf_args)
        | Some value =>
          match assoc_get SHELL_VAR_CONF_IS_COLOR_VALUE_TO_OBJ value with
          | None => Raised BeartypeConfShellVarException
          | Some is_color_override => Returned is_color_override
          end
        end in
      match is_color_or_exn with
      | Raised e => (Raised e, w)
      | Returned is_color =>
        let self :=
          {| _claw_is_pep526 := arg_claw_is_pep526 conf_args;
             _conf_args := conf_args;
             _conf_kwargs :=
               [("claw_is_pep526", arg_claw_is_pep526 conf_args);
                ("is_color", is_color);
                ("is_debug", arg_is_debug conf_args);
                ("is_pep484_tower", arg_is_pep484_tower conf_args);
                ("strategy", arg_strategy conf_args);
                ("warning_cls_on_decorator_exception", warning_cls)];
             _is_color := is_color;
             _is_debug := arg_is_debug conf_args;
             _is_pep484_tower := arg_is_pep484_tower conf_args;
             _is_warning_cls_on_decorator_exception_set := is_set;
             _warning_cls_on_decorator_exception := warning_cls;
             _strategy := arg_strategy conf_args |} in
        let r := List.length (heap w) in
        (Returned r,
         {| beartype_conf_args_to_conf :=
              (conf_args, r) :: beartype_conf_args_to_conf w;
            heap := heap w ++ [self];
            trace := trace w |})
      end
    end
  end.

(** [BeartypeConf.__new__]: the lock is entered, the body runs, and the
    context manager leaves the lock however the body ends. *)
Definition BeartypeConf___new__
  (conf_args : ConfArgs) (shell : option string) (w : World)
  : outcome ref * World :=
  let (r, w') := BeartypeConf___new___locked conf_args shell (log LockEnter w) in
  (r, log LockExit w').

(** A call as the program makes it: the parameters and the value of the
    shell variable at that moment. *)
Definition call : Type := (ConfArgs * option string)%type.

(** The state after a sequence of calls, whatever each one returned. *)
Fixpoint run (cs : list call) (w : World) : World :=
  match cs with
  | [] => w
  | (a, shell) :: cs' => run cs' (snd (BeartypeConf___new__ a shell w))
  end.



Definition pyval_eq_dec (a b : pyval) : {a = b} + {a <> b}.
Proof.
  decide equality;
    first [apply Z.eq_dec | apply string_dec | apply bool_dec
          | decide equality].
Defined.

Definition ConfArgs_eq_dec (a b : ConfArgs) : {a = b} + {a <> b}.
Proof. decide equality; apply pyval_eq_dec. Defined.

Definition BeartypeConf_eq_dec (a b : BeartypeConf) : {a = b} + {a <> b}.
Proof.
  decide equality;
    first [apply pyval_eq_dec | apply bool_dec | apply ConfArgs_eq_dec | idtac].
  apply list_eq_dec. intros [k1 v1] [k2 v2].
  destruct (string_dec k1 k2); [|right; congruence].
  destruct (pyval_eq_dec v1 v2); [left|right]; congruence.
Defined.

(** The default parameters of [__new__]. *)
Definition default_args : ConfArgs :=
  {| arg_claw_is_pep526 := VBool true;
     arg_is_color := VNone;
     arg_is_debug := VBool false;
     arg_is_pep484_tower := VBool false;
     arg_strategy := VStrategy O1;
     arg_warning_cls_on_decorator_exception :=
       _BeartypeConfReduceDecoratorExceptionToWarningDefault |}.


End Conf.

(* ===================================================================== *)
(** * Type hints *)
(* ===================================================================== *)

Module Hints.

(** Signs of PEP-compliant hints ([beartype._data.hint.pep.sign]). *)
Inductive HintSign : Type :=
  | HintSignUnion
  | HintSignOptional
  | HintSignOther (name : string).

(** A type hint: either a PEP-noncompliant class, checked by [isinstance],
    or a PEP-compliant hint with a sign and subscripted arguments. *)
Inductive hint : Type :=
  | HClass (cls : string)
  | HPep (sign : HintSign) (args : list hint).

Definition HintSign_eq_dec (a b : HintSign) : {a = b} + {a <> b}.
Proof. decide equality; apply string_dec. Defined.

Fixpoint hint_eq_dec (a b : hint) {struct a} : {a = b} + {a <> b}.
Proof.
  decide equality.
  - apply string_dec.
  - apply (list_eq_dec hint_eq_dec).
  - apply HintSign_eq_dec.
Defined.

(** [HINT_SIGNS_UNION] is declared in
    [beartype._data.hint.pep.sign.datapepsignset]: the signs of
    [typing.Optional] and of [typing.Union] and PEP 604 unions. *)
Definition HINT_SIGNS_UNION : list HintSign :=
  [HintSignOptional; HintSignUnion].

(** [get_hint_pep_sign_or_none]. *)
Definition get_hint_pep_sign_or_none (h : hint) : option HintSign :=
  match h with
  | HClass _ => None
  | HPep sign _ => Some sign
  end.

(** [get_hint_pep_args]: the subscripted arguments, or the empty tuple. *)
Definition get_hint_pep_args (h : hint) : list hint :=
  match h with
  | HClass _ => []
  | HPep _ args => args
  end.

(** [is_hint_pep]. *)
Definition is_hint_pep (h : hint) : bool :=
  match h with
  | HClass _ => false
  | HPep _ _ => true
  end.

(** [sign in HINT_SIGNS_UNION], for the result of
    [get_hint_pep_sign_or_none]. *)
Definition in_HINT_SIGNS_UNION (s : option HintSign) : bool :=
  match s with
  | None => false
  | Some sign =>
    if in_dec HintSign_eq_dec sign HINT_SIGNS_UNION then true else false
  end.

(** Is the hint a union node? *)
Definition is_union (h : hint) : bool :=
  in_HINT_SIGNS_UNION (get_hint_pep_sign_or_none h).

(** The type variable lookup table carried with a sanified hint. *)
Definition TypeVarToHint : Type := list (string * hint).

Definition TypeVarToHint_eq_dec (a b : TypeVarToHint) : {a = b} + {a <> b}.
Proof.
  apply list_eq_dec. intros [x1 h1] [x2 h2].
  destruct (string_dec x1 x2); [|right; congruence].
  destruct (hint_eq_dec h1 h2); [left|right]; congruence.
Defined.

(** [HintSanifiedData]: a sanified hint with its supplementary metadata. *)
Record HintSanifiedData : Type := mkHintSanifiedData {
  sane_hint : hint;
  sane_typevar_to_hint : TypeVarToHint
}.

(** [HintSanifiedData.permute(hint=...)]: the same metadata around another
    hint. *)
Definition permute (d : HintSanifiedData) (h : hint) : HintSanifiedData :=
  {| sane_hint := h; sane_typevar_to_hint := sane_typevar_to_hint d |}.

(** [HintOrHintSanifiedData]: a bare hint or a hint with metadata. *)
Inductive HintOrHintSanifiedData : Type :=
  | Bare (h : hint)
  | Sane (d : HintSanifiedData).

Definition HintOrHintSanifiedData_eq_dec (a b : HintOrHintSanifiedData)
  : {a = b} + {a <> b}.
Proof.
  decide equality.
  - apply hint_eq_dec.
  - decide equality; [apply TypeVarToHint_eq_dec | apply hint_eq_dec].
Defined.

(** [get_hint_or_sane_hint]. *)
Definition get_hint_or_sane_hint (x : HintOrHintSanifiedData) : hint :=
  match x with
  | Bare h => h
  | Sane d => sane_hint d
  end.

(** Is the encapsulated hint a union node? *)
Definition is_union_child (x : HintOrHintSanifiedData) : bool :=
  is_union (get_hint_or_sane_hint x).

(** What the flattening loop appends for a sanified child that is a union:
    its child hints, each under the metadata of the union when there is
    one. *)
Definition union_child_childs (x : HintOrHintSanifiedData)
  : list HintOrHintSanifiedData :=
  match x with
  | Sane d => map (fun g => Sane (permute d g)) (get_hint_pep_args (sane_hint d))
  | Bare h => map Bare (get_hint_pep_args h)
  end.

(** Python's [set.add]. A set is kept as the list of its members, without
    repetition; Python iterates over a set in an order of its own, which
    the position of a member in this list does not stand for, so that
    only membership in the list and its length are facts about the
    set. *)
Definition set_add {A : Type} (eq_dec : forall a b : A, {a = b} + {a <> b})
  (x : A) (s : list A) : list A :=
  if in_dec eq_dec x s then s else s ++ [x].

(** ** What it means for a value to satisfy a hint *)

Section Satisfaction.

Variable value : Type.

(** [isinstance(value, cls)] for a class named [cls]. *)
Variable isinstance : value -> string -> bool.

(** Satisfaction of a PEP-compliant hint that is not a union, given its
    sign, arguments and type variable table. *)
Variable sat_pep : string -> list hint -> TypeVarToHint -> value -> bool.

(** Modelled from the spec: the generated validator as it runs on a value
    is assembled outside this module; a leaf requires an instance of its
    class and a union at least one satisfied child. *)
Fixpoint satisfies (tv : TypeVarToHint) (h : hint) (v : value) : bool :=
  match h with
  | HClass cls => isinstance v cls
  | HPep HintSignUnion args => existsb (fun a => satisfies tv a v) args
  | HPep HintSignOptional args => existsb (fun a => satisfies tv a v) args
  | HPep (HintSignOther name) args => sat_pep name args tv v
  end.

Definition satisfies_child (x : HintOrHintSanifiedData) (v : value) : bool :=
  match x with
  | Bare h => satisfies [] h v
  | Sane d => satisfies (sane_typevar_to_hint d) (sane_hint d) v
  end.

(** A union over a list of children accepts a value that satisfies one
    of them. *)
Definition satisfies_any (xs : list HintOrHintSanifiedData) (v : value)
  : bool :=
  existsb (fun x => satisfies_child x v) xs.

End Satisfaction.

Arguments satisfies {value} isinstance sat_pep tv h v.
Arguments satisfies_child {value} isinstance sat_pep x v.
Arguments satisfies_any {value} isinstance sat_pep xs v.

End Hints.

(* ===================================================================== *)
(** * [beartype/_check/code/pep/codepep484604.py] *)
(* ===================================================================== *)

Module Union.
Import Hints.

(** ** Object pool *)

(** The two container types the union code borrows. *)
Inductive PoolKind : Type := PoolSet | PoolList.

Definition PoolKind_eq_dec (a b : PoolKind) : {a = b} + {a <> b}.
Proof. decide equality. Defined.

(** The pool of each type: the objects currently free, by identity, and
    the identity the next created object gets. *)
Record Pools : Type := mkPools {
  pool_set : list nat;
  pool_list : list nat;
  pool_fresh : nat
}.

Definition pool_of (k : PoolKind) (p : Pools) : list nat :=
  match k with PoolSet => pool_set p | PoolList => pool_list p end.

(** Modelled from the spec: [acquire_object_typed] is declared in
    [beartype._util.cache.pool.utilcachepoolobjecttyped]; a pool hands out
    a reusable scratch container of the requested type, a free one when
    there is one and a new one otherwise. *)
Definition acquire_object_typed (k : PoolKind) (p : Pools) : nat * Pools :=
  match k, pool_of k p with
  | PoolSet, o :: free =>
      (o, {| pool_set := free; pool_list := pool_list p;
             pool_fresh := pool_fresh p |})
  | PoolList, o :: free =>
      (o, {| pool_set := pool_set p; pool_list := free;
             pool_fresh := pool_fresh p |})
  | _, [] =>
      (pool_fresh p,
       {| pool_set := pool_set p; pool_list := pool_list p;
          pool_fresh := S (pool_fresh p) |})
  end.

(** Modelled from the spec: [release_object_typed] returns a borrowed
    container to the pool of its type. *)
Definition release_object_typed (k : PoolKind) (o : nat) (p : Pools) : Pools :=
  match k with
  | PoolSet =>
      {| pool_set := o :: pool_set p; pool_list := pool_list p;
         pool_fresh := pool_fresh p |}
  | PoolList =>
      {| pool_set := pool_set p; pool_list := o :: pool_list p;
         pool_fresh := pool_fresh p |}
  end.

(** ** Generated code *)

(** Which of the three pith strings of the metadata a snippet interpolates:
    the full expression yielding the current pith, the assignment
    expression binding it to the local variable, or the name of that
    variable. *)
Inductive PithExpr : Type :=
  | pith_curr_expr
  | pith_curr_assign_expr
  | pith_curr_var_name.

Definition PithExpr_eq_dec (a b : PithExpr) : {a = b} + {a <> b}.
Proof. decide equality. Defined.

(** The text templates are declared in
    [beartype._data.code.pep.datacodepep484604]. A formatted child snippet
    is kept as the template with the values interpolated into it;
    [hint_curr_expr], a Python expression evaluating to a tuple of types,
    is kept as that tuple, and [hint_child_placeholder] as the position of
    the enqueued child. Each child snippet ends in " or". *)
Inductive snippet : Type :=
  | CODE_PEP484604_UNION_CHILD_NONPEP
      (pith_expr : PithExpr) (hint_curr_expr : list hint)
  | CODE_PEP484604_UNION_CHILD_PEP (hint_child_placeholder : nat).

(** The value of [hints_meta.func_curr_code]: either
    [CODE_PEP484604_UNION_PREFIX] followed by the snippets appended so far,
    or the munged text, where the last " or" is stripped, the suffix is
    appended and [indent_curr] is formatted in. *)
Inductive code : Type :=
  | code_prefixed (snippets : list snippet)
  | code_munged (snippets : list snippet) (indent_curr : string).

Definition CODE_PEP484604_UNION_PREFIX : code := code_prefixed [].

Definition snippet_eq_dec (a b : snippet) : {a = b} + {a <> b}.
Proof.
  decide equality;
    first [apply Nat.eq_dec | apply PithExpr_eq_dec
          | apply (list_eq_dec hint_eq_dec)].
Defined.

Definition code_eq_dec (a b : code) : {a = b} + {a <> b}.
Proof.
  decide equality;
    first [apply string_dec | apply (list_eq_dec snippet_eq_dec)].
Defined.

(** [code is not CODE_PEP484604_UNION_PREFIX]: appending a snippet, which
    is never the empty string, yields a new string object. *)
Definition is_not_prefix (c : code) : bool :=
  match c with
  | code_prefixed [] => false
  | _ => true
  end.

(** ** Metadata *)

(** [hints_meta.hint_curr_meta]: the hint being visited and its type
    variable table. *)
Record HintMeta : Type := mkHintMeta {
  meta_hint : hint;
  typevar_to_hint : TypeVarToHint
}.

(** What [enqueue_hint_or_sane_child] records for a child. *)
Record ChildMeta : Type := mkChildMeta {
  child_hint_or_sane : HintOrHintSanifiedData;
  child_indent_level : nat;
  child_pith_expr : PithExpr;
  child_pith_var_name_index : nat
}.

(** The fields of [HintsMeta] the union code reads or writes. *)
Record HintsMeta : Type := mkHintsMeta {
  hint_curr_meta : HintMeta;
  conf : Conf.BeartypeConf;
  cls_stack : option (list string);
  exception_prefix : string;
  indent_curr : string;
  indent_level_child : nat;
  pith_curr_var_name_index : nat;
  func_curr_code : code;
  enqueued : list ChildMeta
}.

Definition HintMeta_eq_dec (a b : HintMeta) : {a = b} + {a <> b}.
Proof. decide equality; [apply TypeVarToHint_eq_dec | apply hint_eq_dec]. Defined.

Definition ChildMeta_eq_dec (a b : ChildMeta) : {a = b} + {a <> b}.
Proof.
  decide equality;
    first [apply Nat.eq_dec | apply PithExpr_eq_dec
          | apply HintOrHintSanifiedData_eq_dec].
Defined.

Definition HintsMeta_eq_dec (a b : HintsMeta) : {a = b} + {a <> b}.
Proof.
  decide equality;
    first [apply Nat.eq_dec | apply string_dec | apply code_eq_dec
          | apply HintMeta_eq_dec | apply Conf.BeartypeConf_eq_dec
          | apply (list_eq_dec ChildMeta_eq_dec) | idtac].
  decide equality. apply (list_eq_dec string_dec).
Defined.

Definition set_func_curr_code (c : code) (m : HintsMeta) : HintsMeta :=
  {| hint_curr_meta := hint_curr_meta m; conf := conf m;
     cls_stack := cls_stack m; exception_prefix := exception_prefix m;
     indent_curr := indent_curr m;
     indent_level_child := indent_level_child m;
     pith_curr_var_name_index := pith_curr_var_name_index m;
     func_curr_code := c; enqueued := enqueued m |}.

(** [hints_meta.func_curr_code += snippet]. *)
Definition append_snippet (s : snippet) (m : HintsMeta) : HintsMeta :=
  set_func_curr_code
    (match func_curr_code m with
     | code_prefixed l => code_prefixed (l ++ [s])
     | code_munged l i => code_munged (l ++ [s]) i
     end) m.

(** [HintsMeta.enqueue_hint_or_sane_child]: the child is appended to the
    queue of hints still to be visited, and the placeholder standing for
    its code is returned. *)
Definition enqueue_hint_or_sane_child
  (hint_or_sane : HintOrHintSanifiedData) (indent_level : nat)
  (pith_expr : PithExpr) (pith_var_name_index : nat) (m : HintsMeta)
  : nat * HintsMeta :=
  (List.length (enqueued m),
   {| hint_curr_meta := hint_curr_meta m; conf := conf m;
      cls_stack := cls_stack m; exception_prefix := exception_prefix m;
      indent_curr := indent_curr m;
      indent_level_child := indent_level_child m;
      pith_curr_var_name_index := pith_curr_var_name_index m;
      func_curr_code := func_curr_code m;
      enqueued := enqueued m ++
        [{| child_hint_or_sane := hint_or_sane;
            child_indent_level := indent_level;
            child_pith_expr := pith_expr;
            child_pith_var_name_index := pith_var_name_index |}] |}).

(** ** Effects *)

Inductive event : Type :=
  | Print (m : HintMeta)
  | Acquire (k : PoolKind) (o : nat)
  | Release (k : PoolKind) (o : nat).

(** The process state of the union code: the object pools, the memo table
    of the flattening getter (most recent entry first) and the log of what
    was printed, acquired and released. *)
Record World : Type := mkWorld {
  pools : Pools;
  flattened : list (HintsMeta * list HintOrHintSanifiedData);
  effects : list event
}.

(** A computation on the process state that returns or raises. *)
Definition M (A : Type) : Type := World -> outcome A * World.

Definition ret {A} (a : A) : M A := fun w => (Returned a, w).

Definition raise {A} (e : exn) : M A := fun w => (Raised e, w).

Definition bind {A B} (m : M A) (k : A -> M B) : M B :=
  fun w =>
    match m w with
    | (Returned a, w') => k a w'
    | (Raised e, w') => (Raised e, w')
    end.

Declare Scope py_scope.
Delimit Scope py_scope with py.
Notation "x <- m ;; k" := (bind m (fun x => k))
  (at level 61, m at next level, right associativity) : py_scope.
Notation "m ;;; k" := (bind m (fun _ => k))
  (at level 61, right associativity) : py_scope.

Definition emit (e : event) : M unit :=
  fun w => (Returned tt,
            {| pools := pools w; flattened := flattened w;
               effects := effects w ++ [e] |}).

Definition acquire (k : PoolKind) : M nat :=
  fun w =>
    let (o, p) := acquire_object_typed k (pools w) in
    (Returned o,
     {| pools := p; flattened := flattened w;
        effects := effects w ++ [Acquire k o] |}).

Definition release (k : PoolKind) (o : nat) : M unit :=
  fun w =>
    (Returned tt,
     {| pools := release_object_typed k o (pools w);
        flattened := flattened w;
        effects := effects w ++ [Release k o] |}).

(** A pure result that may be an exception. *)
Definition lift {A} (r : outcome A) : M A := fun w => (r, w).

Fixpoint memo_get (d : list (HintsMeta * list HintOrHintSanifiedData))
  (k : HintsMeta) : option (list HintOrHintSanifiedData) :=
  match d with
  | [] => None
  | (k', v) :: d' =>
    if HintsMeta_eq_dec k' k then Some v else memo_get d' k
  end.

(** Modelled from the spec: [callable_cached] is declared in
    [beartype._util.cache.utilcachecall]; a memoized call looks its
    argument up, returns the stored result on a hit without calling the
    function, and on a miss calls it once and stores what it returned. The
    argument here is the [hints_meta] object the getter is passed. *)
Definition callable_cached
  (func : HintsMeta -> M (list HintOrHintSanifiedData))
  : HintsMeta -> M (list HintOrHintSanifiedData) :=
  fun hints_meta w =>
    match memo_get (flattened w) hints_meta with
    | Some v => (Returned v, w)
    | None =>
      match func hints_meta w with
      | (Returned v, w') =>
          (Returned v,
           {| pools := pools w'; flattened := (hints_meta, v) :: flattened w';
              effects := effects w' |})
      | (Raised e, w') => (Raised e, w')
      end
    end.

Open Scope py_scope.

(** ** The flattening getter and the code factory *)

Section Factory.

(** [sanify_hint_child] is declared in
    [beartype._check.convert.convsanify]: given a child hint, the
    configuration, the class stack, the type variable table and the
    exception prefix, it returns the sanified hint, bare or with
    metadata, or raises. *)
Variable sanify_hint_child :
  hint -> Conf.BeartypeConf -> option (list string) -> TypeVarToHint ->
  string -> outcome HintOrHintSanifiedData.

(** The [while hint_childs_index < hint_childs_len] loop, on the child
    hints from [hint_childs_index] on; [hint_or_sane_childs_new] is the
    content of the borrowed list. *)
Fixpoint flatten_loop (hints_meta : HintsMeta) (hint_childs : list hint)
  (hint_or_sane_childs_new : list HintOrHintSanifiedData)
  : outcome (list HintOrHintSanifiedData) :=
  match hint_childs with
  | [] => Returned hint_or_sane_childs_new
  | hint_child :: hint_childs_rest =>
    match sanify_hint_child hint_child (conf hints_meta)
            (cls_stack hints_meta)
            (typevar_to_hint (hint_curr_meta hints_meta))
            (exception_prefix hints_meta) with
    | Raised e => Raised e
    | Returned hint_or_sane_child =>
      let hint_child := get_hint_or_sane_hint hint_or_sane_child in
      let hint_child_sign := get_hint_pep_sign_or_none hint_child in
      flatten_loop hints_meta hint_childs_rest
        (if in_HINT_SIGNS_UNION hint_child_sign then
           let hint_child_childs := get_hint_pep_args hint_child in
           match hint_or_sane_child with
           | Sane d =>
               (* one append per child child hint, under the metadata *)
               hint_or_sane_childs_new ++
               map (fun hint_child_child =>
                      Sane (permute d hint_child_child)) hint_child_childs
           | Bare _ =>
               (* extend() with the bare child child hints *)
               hint_or_sane_childs_new ++ map Bare hint_child_childs
           end
         else hint_or_sane_childs_new ++ [hint_or_sane_child])
    end
  end.

(** The function [callable_cached] decorates: the body of
    [_get_hint_pep484604_union_args_flattened]. *)
Definition _get_hint_pep484604_union_args_flattened_func
  (hints_meta : HintsMeta) : M (list HintOrHintSanifiedData) :=
  emit (Print (hint_curr_meta hints_meta)) ;;;
  let hint := meta_hint (hint_curr_meta hints_meta) in
  let hint_childs := get_hint_pep_args hint in
  match hint_childs with
  | [] => raise AssertionError
  | _ :: _ =>
    hint_or_sane_childs_new <- acquire PoolList ;;
    hint_or_sane_childs <- lift (flatten_loop hints_meta hint_childs []) ;;
    release PoolList hint_or_sane_childs_new ;;;
    ret hint_or_sane_childs
  end.

(** [_get_hint_pep484604_union_args_flattened], as decorated. *)
Definition _get_hint_pep484604_union_args_flattened
  : HintsMeta -> M (list HintOrHintSanifiedData) :=
  callable_cached _get_hint_pep484604_union_args_flattened_func.

(** The [for hint_or_sane_child in hint_or_sane_childs] loop filtering
    the children into the two borrowed sets. *)
Fixpoint filter_childs (hint_or_sane_childs : list HintOrHintSanifiedData)
  (hint_childs_nonpep : list hint)
  (hint_or_sane_childs_pep : list HintOrHintSanifiedData)
  : list hint * list HintOrHintSanifiedData :=
  match hint_or_sane_childs with
  | [] => (hint_childs_nonpep, hint_or_sane_childs_pep)
  | hint_or_sane_child :: rest =>
    let hint_child := get_hint_or_sane_hint hint_or_sane_child in
    if is_hint_pep hint_child
    then filter_childs rest hint_childs_nonpep
           (set_add HintOrHintSanifiedData_eq_dec hint_or_sane_child
              hint_or_sane_childs_pep)
    else filter_childs rest
           (set_add hint_eq_dec hint_child hint_childs_nonpep)
           hint_or_sane_childs_pep
  end.

(** Truth value of a container: non-empty. *)
Definition truthy {A} (l : list A) : bool :=
  match l with [] => false | _ :: _ => true end.

(** The [for ... in enumerate(hint_or_sane_childs_pep)] loop, from index
    [hint_or_sane_child_pep_index] on. *)
Fixpoint emit_pep (hint_or_sane_child_pep_index : nat)
  (hint_or_sane_childs_pep : list HintOrHintSanifiedData)
  (hint_childs_nonpep : list hint) (hints_meta : HintsMeta) : HintsMeta :=
  match hint_or_sane_childs_pep with
  | [] => hints_meta
  | hint_or_sane_child_pep :: rest =>
    let (hint_child_placeholder, hints_meta) :=
      enqueue_hint_or_sane_child hint_or_sane_child_pep
        (indent_level_child hints_meta)
        (if truthy hint_childs_nonpep ||
            negb (Nat.eqb hint_or_sane_child_pep_index 0)
         then pith_curr_var_name
         else pith_curr_assign_expr)
        (pith_curr_var_name_index hints_meta)
        hints_meta in
    emit_pep (S hint_or_sane_child_pep_index) rest hint_childs_nonpep
      (append_snippet
         (CODE_PEP484604_UNION_CHILD_PEP hint_child_placeholder)
         hints_meta)
  end.

(** [make_hint_pep484604_check_expr]: returns the metadata object as the
    call leaves it. An exception can only come from the getter, before
    the object is written to. *)
Definition make_hint_pep484604_check_expr (hints_meta : HintsMeta)
  : M HintsMeta :=
  hint_or_sane_childs <-
    _get_hint_pep484604_union_args_flattened hints_meta ;;
  hint_childs_nonpep_obj <- acquire PoolSet ;;
  hint_or_sane_childs_pep_obj <- acquire PoolSet ;;
  let (hint_childs_nonpep, hint_or_sane_childs_pep) :=
    filter_childs hint_or_sane_childs [] [] in
  let hints_meta :=
    set_func_curr_code CODE_PEP484604_UNION_PREFIX hints_meta in
  let hints_meta :=
    if truthy hint_childs_nonpep
    then append_snippet
           (CODE_PEP484604_UNION_CHILD_NONPEP
              (if truthy hint_or_sane_childs_pep
               then pith_curr_assign_expr
               else pith_curr_expr)
              hint_childs_nonpep)
           hints_meta
    else hints_meta in
  let hints_meta :=
    emit_pep 0 hint_or_sane_childs_pep hint_childs_nonpep hints_meta in
  release PoolSet hint_childs_nonpep_obj ;;;
  release PoolSet hint_or_sane_childs_pep_obj ;;;
  ret (if is_not_prefix (func_curr_code hints_meta)
       then
         match func_curr_code hints_meta with
         | code_prefixed snippets =>
             set_func_curr_code
               (code_munged snippets (indent_curr hints_meta)) hints_meta
         | code_munged _ _ => hints_meta
         end
       else hints_meta).

End Factory.

(** ** Reading the generated code *)

(** The pith string a snippet tests: its own for the membership test, the
    one handed to the enqueued child for a placeholder. *)
Definition snippet_pith (queue : list ChildMeta) (s : snippet)
  : option PithExpr :=
  match s with
  | CODE_PEP484604_UNION_CHILD_NONPEP p _ => Some p
  | CODE_PEP484604_UNION_CHILD_PEP placeholder =>
      option_map child_pith_expr (nth_error queue placeholder)
  end.

Definition code_snippets (c : code) : list snippet :=
  match c with
  | code_prefixed l => l
  | code_munged l _ => l
  end.

(** The pith strings of the emitted sub-expressions, in order. *)
Definition pith_uses (m : HintsMeta) : list (option PithExpr) :=
  map (snippet_pith (enqueued m)) (code_snippets (func_curr_code m)).

(** The child a placeholder snippet stands for. *)
Definition snippet_child (queue : list ChildMeta) (s : snippet)
  : option HintOrHintSanifiedData :=
  match s with
  | CODE_PEP484604_UNION_CHILD_NONPEP _ _ => None
  | CODE_PEP484604_UNION_CHILD_PEP placeholder =>
      option_map child_hint_or_sane (nth_error queue placeholder)
  end.

Section Meaning.

Variable value : Type.
Variable isinstance : value -> string -> bool.
Variable sat_pep : string -> list hint -> TypeVarToHint -> value -> bool.

(** What a snippet tests of the pith [v]: membership in the tuple of
    types, or the check of the child its placeholder is later replaced
    by. *)
Definition snippet_holds (queue : list ChildMeta) (v : value) (s : snippet)
  : bool :=
  match s with
  | CODE_PEP484604_UNION_CHILD_NONPEP _ types =>
      existsb (fun t => satisfies isinstance sat_pep [] t v) types
  | CODE_PEP484604_UNION_CHILD_PEP placeholder =>
      match nth_error queue placeholder with
      | Some child =>
          satisfies_child isinstance sat_pep (child_hint_or_sane child) v
      | None => false
      end
  end.

(** The check the munged code performs: its snippets joined by [or].
    The bare prefix is no check at all. *)
Definition code_check (m : HintsMeta) (v : value) : option bool :=
  match func_curr_code m with
  | code_prefixed _ => None
  | code_munged snippets _ =>
      Some (existsb (snippet_holds (enqueued m) v) snippets)
  end.

End Meaning.

Arguments snippet_holds {value} isinstance sat_pep queue v s.
Arguments code_check {value} isinstance sat_pep m v.

End Union.

(* ===================================================================== *)
(** * [beartype/vale/_valeisobj.py] *)
(* ===================================================================== *)

Module Vale.

(** Objects a validator is run on. An object with a [__dict__] carries its
    attributes by name; [SENTINEL] is the placeholder singleton of
    [beartype._util.utilobject]. Attribute lookup that runs user code
    (properties, [__getattr__]) is outside this model. *)
Inductive pith : Type :=
  | SENTINEL
  | PNone
  | PInt (z : Z)
  | PStr (s : string)
  | PObject (attrs : list (string * pith)).

(** [pith is SENTINEL]. *)
Definition is_SENTINEL (p : pith) : bool :=
  match p with SENTINEL => true | _ => false end.

(** [getattr(pith, name, default)]. *)
Definition getattr (p : pith) (name : string) (default : pith) : pith :=
  match p with
  | PObject attrs =>
    match Conf.assoc_get attrs name with
    | Some attr => attr
    | None => default
    end
  | _ => default
  end.

(** [hasattr(pith, name)]. *)
Definition hasattr (p : pith) (name : string) : bool :=
  match p with
  | PObject attrs =>
    match Conf.assoc_get attrs name with Some _ => true | None => false end
  | _ => false
  end.

(** The code snippet of a validator: the [IsAttr] template with the values
    formatted into it, or the text of another validator. *)
Inductive vale_code : Type :=
  | VALE_CODE_CHECK_ISATTR
      (attr_name_expr : string) (local_name_obj_attr_value : string)
      (obj_attr_value_is_valid_expr : vale_code)
  | vale_code_text (text : string).

(** [_SubscriptedIs]: what subscripting a [beartype.vale] class returns. *)
Record _SubscriptedIs : Type := mk_SubscriptedIs {
  is_valid : pith -> bool;
  _is_valid_code : vale_code;
  _is_valid_code_locals : list string;
  get_repr : string
}.

(** What [IsAttr] can be subscripted by. *)
Inductive arg : Type :=
  | AObject (p : pith)
  | AValidator (v : _SubscriptedIs)
  | ATuple (items : list arg).

Definition is_ascii_letter (c : ascii) : bool :=
  let n := nat_of_ascii c in
  ((65 <=? n)%nat && (n <=? 90)%nat) || ((97 <=? n)%nat && (n <=? 122)%nat).

Definition is_ascii_digit (c : ascii) : bool :=
  let n := nat_of_ascii c in (48 <=? n)%nat && (n <=? 57)%nat.

Definition is_id_start (c : ascii) : bool :=
  is_ascii_letter c || Ascii.eqb c "_"%char.

Definition is_id_continue (c : ascii) : bool :=
  is_id_start c || is_ascii_digit c.

Fixpoint string_forallb (f : ascii -> bool) (s : string) : bool :=
  match s with
  | EmptyString => true
  | String c s' => f c && string_forallb f s'
  end.

Fixpoint string_mem (c : ascii) (s : string) : bool :=
  match s with
  | EmptyString => false
  | String c' s' => Ascii.eqb c' c || string_mem c s'
  end.

(** [str.isidentifier] on ASCII text: a letter or underscore followed by
    letters, digits and underscores. *)
Definition isidentifier (s : string) : bool :=
  match s with
  | EmptyString => false
  | String c s' => is_id_start c && string_forallb is_id_continue s'
  end.

(** The nested function [is_valid] of [__class_getitem__], closed over
    [attr_name] and [attr_validator]. *)
Definition IsAttr_is_valid (attr_name : string) (attr_validator : _SubscriptedIs)
  (p : pith) : bool :=
  let pith_attr := getattr p attr_name SENTINEL in
  negb (is_SENTINEL pith_attr) && is_valid attr_validator pith_attr.

(** [IsAttr.__class_getitem__(cls, args)]. Reading
    [attr_validator._is_valid_code_locals] off an object that is no
    validator raises [AttributeError]. *)
Definition IsAttr___class_getitem__ (args : arg) : outcome _SubscriptedIs :=
  match args with
  | ATuple items =>
    if negb (Nat.eqb (List.length items) 2)
    then
      (* three or more arguments, or the empty tuple *)
      Raised BeartypeValeSubscriptionException
    else
      match items with
      | [attr_name; attr_validator] =>
        match attr_name with
        | AObject (PStr attr_name) =>
          if String.eqb attr_name EmptyString
          then Raised BeartypeValeSubscriptionException
          else if negb (string_mem "."%char attr_name)
          then
            if negb (isidentifier attr_name)
            then Raised BeartypeValeSubscriptionException
            else
              match attr_validator with
              | AValidator validator =>
                Returned
                  {| is_valid := IsAttr_is_valid attr_name validator;
                     _is_valid_code :=
                       VALE_CODE_CHECK_ISATTR attr_name
                         ("{obj}_isattr_" ++ attr_name)
                         (_is_valid_code validator);
                     _is_valid_code_locals :=
                       "SENTINEL" :: _is_valid_code_locals validator;
                     get_repr :=
                       "IsAttr['" ++ attr_name ++ "', " ++
                       get_repr validator ++ "]" |}
              | _ => Raised AttributeError
              end
          else Raised BeartypeValeSubscriptionException
        | _ => Raised BeartypeValeSubscriptionException
        end
      | _ => Raised BeartypeValeSubscriptionException
      end
  | _ => Raised BeartypeValeSubscriptionException
  end.

(** The subscriptions the validation of the first argument lets through: a
    2-tuple whose first item is a non-empty string with no "." that is an
    identifier. *)
Definition is_named_pair (args : arg) : bool :=
  match args with
  | ATuple [AObject (PStr attr_name); _] =>
      negb (String.eqb attr_name EmptyString) &&
      negb (string_mem "."%char attr_name) &&
      isidentifier attr_name
  | _ => false
  end.

Definition is_validator (a : arg) : bool :=
  match a with AValidator _ => true | _ => false end.

(** A 2-tuple of such a name and a validator. *)
Definition is_name_and_validator (args : arg) : bool :=
  is_named_pair args &&
  match args with
  | ATuple [_; attr_validator] => is_validator attr_validator
  | _ => false
  end.

End Vale.

(* ===================================================================== *)
(** * Invariants and sample inputs *)
(* ===================================================================== *)

Module ConfInv.
Import Conf.

(** Every dictionary entry refers to a configuration of the heap. *)
Definition refs_valid (w : World) : Prop :=
  forall k r, In (k, r) (beartype_conf_args_to_conf w) ->
              r < List.length (heap w).

(** Every configuration of the heap is the one the dictionary holds for
    the parameters it was built from. *)
Definition all_cached (w : World) : Prop :=
  forall r o, nth_error (heap w) r = Some o ->
              dict_get (beartype_conf_args_to_conf w) (_conf_args o) = Some r.

Definition wf (w : World) : Prop := refs_valid w /\ all_cached w.

(** [BeartypeConf(is_debug=True)] and [BeartypeConf(is_debug=1)]. *)
Definition args_debug (v : pyval) : ConfArgs :=
  {| arg_claw_is_pep526 := VBool true;
     arg_is_color := VNone;
     arg_is_debug := v;
     arg_is_pep484_tower := VBool false;
     arg_strategy := VStrategy O1;
     arg_warning_cls_on_decorator_exception :=
       _BeartypeConfReduceDecoratorExceptionToWarningDefault |}.

End ConfInv.

Module UnionInv.
Import Hints Union.

(** What the flattened tuple holds in place of one sanified child: the
    child hints of a union, the child itself otherwise. *)
Definition expand_child (x : HintOrHintSanifiedData)
  : list HintOrHintSanifiedData :=
  if is_union_child x then union_child_childs x else [x].

Section WithSanifier.

Variable sanify_hint_child :
  hint -> Conf.BeartypeConf -> option (list string) -> TypeVarToHint ->
  string -> outcome HintOrHintSanifiedData.

(** The child hints of the union, each sanified as the getter sanifies
    it, up to the first one that raises. *)
Fixpoint sanify_childs (hints_meta : HintsMeta) (hint_childs : list hint)
  : outcome (list HintOrHintSanifiedData) :=
  match hint_childs with
  | [] => Returned []
  | hint_child :: rest =>
    match sanify_hint_child hint_child (conf hints_meta)
            (cls_stack hints_meta)
            (typevar_to_hint (hint_curr_meta hints_meta))
            (exception_prefix hints_meta) with
    | Raised e => Raised e
    | Returned x =>
      match sanify_childs hints_meta rest with
      | Raised e => Raised e
      | Returned xs => Returned (x :: xs)
      end
    end
  end.

(** What the undecorated getter returns or raises, whatever the process
    state. *)
Definition flattened_value (hints_meta : HintsMeta)
  : outcome (list HintOrHintSanifiedData) :=
  match get_hint_pep_args (meta_hint (hint_curr_meta hints_meta)) with
  | [] => Raised AssertionError
  | hint_childs => flatten_loop sanify_hint_child hints_meta hint_childs []
  end.

(** Every memoized entry is what the getter returns for its key. *)
Definition memo_ok (w : World) : Prop :=
  forall k v, memo_get (flattened w) k = Some v ->
              flattened_value k = Returned v.

End WithSanifier.

(** The metadata object as the factory leaves it once the flattened
    children are known. *)
Definition generated (hint_or_sane_childs : list HintOrHintSanifiedData)
  (hints_meta : HintsMeta) : HintsMeta :=
  let (hint_childs_nonpep, hint_or_sane_childs_pep) :=
    filter_childs hint_or_sane_childs [] [] in
  let hints_meta :=
    set_func_curr_code CODE_PEP484604_UNION_PREFIX hints_meta in
  let hints_meta :=
    if truthy hint_childs_nonpep
    then append_snippet
           (CODE_PEP484604_UNION_CHILD_NONPEP
              (if truthy hint_or_sane_childs_pep
               then pith_curr_assign_expr
               else pith_curr_expr)
              hint_childs_nonpep)
           hints_meta
    else hints_meta in
  let hints_meta :=
    emit_pep 0 hint_or_sane_childs_pep hint_childs_nonpep hints_meta in
  if is_not_prefix (func_curr_code hints_meta)
  then
    match func_curr_code hints_meta with
    | code_prefixed snippets =>
        set_func_curr_code
          (code_munged snippets (indent_curr hints_meta)) hints_meta
    | code_munged _ _ => hints_meta
    end
  else hints_meta.

(** What the [enumerate] loop enqueues for the PEP-compliant children,
    from index [idx] on. *)
Fixpoint pep_children (idx : nat) (pep : list HintOrHintSanifiedData)
  (nonpep : list hint) (indent_level var_name_index : nat)
  : list ChildMeta :=
  match pep with
  | [] => []
  | c :: rest =>
    {| child_hint_or_sane := c;
       child_indent_level := indent_level;
       child_pith_expr :=
         if truthy nonpep || negb (Nat.eqb idx 0)
         then pith_curr_var_name else pith_curr_assign_expr;
       child_pith_var_name_index := var_name_index |}
    :: pep_children (S idx) rest nonpep indent_level var_name_index
  end.

Definition append_snippets (c : code) (l : list snippet) : code :=
  match c with
  | code_prefixed x => code_prefixed (x ++ l)
  | code_munged x i => code_munged (x ++ l) i
  end.

(** The snippets of a union with the given sets of children, the queue
    holding [n] entries before: the membership test when there is a
    PEP-noncompliant child, then one placeholder per PEP-compliant
    child. *)
Definition union_snippets (nonpep : list hint)
  (pep : list HintOrHintSanifiedData) (n : nat) : list snippet :=
  (if truthy nonpep
   then [CODE_PEP484604_UNION_CHILD_NONPEP
           (if truthy pep then pith_curr_assign_expr else pith_curr_expr)
           nonpep]
   else []) ++
  map CODE_PEP484604_UNION_CHILD_PEP (seq n (List.length pep)).

(** [Union[T, str]] for a type variable [T]. *)
Definition union_typevar : hint :=
  HPep HintSignUnion [HPep (HintSignOther "TypeVar") [HClass "T"]; HClass "str"].

(** Does a sub-expression bind the pith to the local variable? *)
Definition binds_pith (p : option PithExpr) : bool :=
  match p with
  | Some pith_curr_assign_expr => true
  | _ => false
  end.

(** The events a call appended to the log. *)
Definition new_effects (before after : World) : list event :=
  skipn (List.length (effects before)) (effects after).

Definition borrow_eq_dec (a b : PoolKind * nat) : {a = b} + {a <> b}.
Proof. decide equality; [apply Nat.eq_dec | apply PoolKind_eq_dec]. Defined.

(** The objects acquired and not yet released after a log of events,
    given those outstanding before it. *)
Fixpoint outstanding (borrowed : list (PoolKind * nat)) (evs : list event)
  : list (PoolKind * nat) :=
  match evs with
  | [] => borrowed
  | Acquire k o :: evs' => outstanding ((k, o) :: borrowed) evs'
  | Release k o :: evs' => outstanding (remove borrow_eq_dec (k, o) borrowed) evs'
  | Print _ :: evs' => outstanding borrowed evs'
  end.

(** ** Sample sanifiers *)

(** A sanifier that returns every child as it is. *)
Definition sanify_plain (h : hint) (_ : Conf.BeartypeConf)
  (_ : option (list string)) (_ : TypeVarToHint) (_ : string)
  : outcome HintOrHintSanifiedData :=
  Returned (Bare h).

(** A sanifier that expands [float] to [float | int] under
    [is_pep484_tower], resolves a type variable through the table, and
    rejects a hint it does not support. *)
Definition sanify_sample (h : hint) (c : Conf.BeartypeConf)
  (_ : option (list string)) (tv : TypeVarToHint) (_ : string)
  : outcome HintOrHintSanifiedData :=
  match h with
  | HClass "float" =>
    match Conf._is_pep484_tower c with
    | Conf.VBool true =>
        Returned (Bare (HPep HintSignUnion [HClass "float"; HClass "int"]))
    | _ => Returned (Bare h)
    end
  | HPep (HintSignOther "TypeVar") [HClass name] =>
    match Conf.assoc_get tv name with
    | Some bound =>
        Returned (Sane {| sane_hint := bound; sane_typevar_to_hint := tv |})
    | None => Returned (Bare h)
    end
  | HPep (HintSignOther "Unsupported") _ =>
      Raised (OtherException "BeartypeDecorHintPepUnsupportedException")
  | _ => Returned (Bare h)
  end.

(** ** Sample inputs *)

Definition conf_default : Conf.BeartypeConf :=
  {| Conf._claw_is_pep526 := Conf.VBool true;
     Conf._conf_args := Conf.default_args;
     Conf._conf_kwargs :=
       [("claw_is_pep526", Conf.VBool true); ("is_color", Conf.VNone);
        ("is_debug", Conf.VBool false);
        ("is_pep484_tower", Conf.VBool false);
        ("strategy", Conf.VStrategy Conf.O1);
        ("warning_cls_on_decorator_exception", Conf.VNone)];
     Conf._is_color := Conf.VNone;
     Conf._is_debug := Conf.VBool false;
     Conf._is_pep484_tower := Conf.VBool false;
     Conf._is_warning_cls_on_decorator_exception_set := false;
     Conf._warning_cls_on_decorator_exception := Conf.VNone;
     Conf._strategy := Conf.VStrategy Conf.O1 |}.

(** Metadata for visiting [h] with the default configuration. *)
Definition meta_for (h : hint) (tv : TypeVarToHint) (prefix : string)
  : HintsMeta :=
  {| hint_curr_meta := {| meta_hint := h; typevar_to_hint := tv |};
     conf := conf_default;
     cls_stack := None;
     exception_prefix := prefix;
     indent_curr := "    ";
     indent_level_child := 2;
     pith_curr_var_name_index := 0;
     func_curr_code := CODE_PEP484604_UNION_PREFIX;
     enqueued := [] |}.

Definition World_empty : World :=
  {| pools := {| pool_set := []; pool_list := []; pool_fresh := 0 |};
     flattened := [];
     effects := [] |}.

Definition List_of (h : hint) : hint := HPep (HintSignOther "List") [h].


(** [Union[int, Union[str, float]]] and [Union[int, str, float]]. *)
Definition union_nested : hint :=
  HPep HintSignUnion
    [HClass "int"; HPep HintSignUnion [HClass "str"; HClass "float"]].

Definition union_flat : hint :=
  HPep HintSignUnion [HClass "int"; HClass "str"; HClass "float"].

(** [Union[int, str, List[int], List[str]]]. *)
Definition union_mixed : hint :=
  HPep HintSignUnion
    [HClass "int"; HClass "str"; List_of (HClass "int");
     List_of (HClass "str")].

(** [Union[List[int], List[str]]]. *)
Definition union_pep_only : hint :=
  HPep HintSignUnion [List_of (HClass "int"); List_of (HClass "str")].

(** [Union[int, Unsupported]]: sanifying the second child raises. *)
Definition union_unsupported : hint :=
  HPep HintSignUnion [HClass "int"; HPep (HintSignOther "Unsupported") []].

(** [Union[object, Any]]: every child accepts every value. *)
Definition union_ignorable : hint :=
  HPep HintSignUnion [HClass "object"; HPep (HintSignOther "Any") []].

(** The unsubscripted union factory. *)
Definition union_childless : hint := HPep HintSignUnion [].

(** A sample universe of values: every value is an [object], and only
    [Any] among the other PEP-compliant hints is satisfied here. *)
Definition isinstance_sample (v : nat) (cls : string) : bool :=
  String.eqb cls "object".

Definition sat_pep_sample (name : string) (_ : list hint)
  (_ : TypeVarToHint) (v : nat) : bool :=
  String.eqb name "Any".

End UnionInv.

Module ValeInv.
Import Vale.

(** [IsEqual[2]]. *)
Definition IsEqual_2 : _SubscriptedIs :=
  {| is_valid := fun p => match p with PInt 2 => true | _ => false end;
     _is_valid_code := vale_code_text "{obj} == 2";
     _is_valid_code_locals := [];
     get_repr := "IsEqual[2]" |}.

(** An array-like object with an [ndim] attribute. *)
Definition array_2d : pith := PObject [("ndim", PInt 2); ("size", PInt 10)].

End ValeInv.

Module ConfMore.
Import Conf.

(** Every parameter passes its [isinstance] test of the [elif] chain. *)
Definition well_typed (a : ConfArgs) : bool :=
  isinstance_bool (arg_claw_is_pep526 a) &&
  isinstance_NoneTypeOr_bool (arg_is_color a) &&
  isinstance_bool (arg_is_debug a) &&
  isinstance_bool (arg_is_pep484_tower a) &&
  is_none_or_warning_cls (arg_warning_cls_on_decorator_exception a) &&
  isinstance_BeartypeStrategy (arg_strategy a).

(** The value [is_color] has after the shell variable was consulted:
    the parameter when the variable is unset, the object the variable
    stands for when it is recognized, nothing when it is not. *)
Definition color_after_shell (a : ConfArgs) (shell : option string)
  : option pyval :=
  match shell with
  | None => Some (arg_is_color a)
  | Some value => assoc_get SHELL_VAR_CONF_IS_COLOR_VALUE_TO_OBJ value
  end.

(** The configuration [__new__] initializes from valid parameters and the
    final value of [is_color]. *)
Definition initialized (a : ConfArgs) (is_color : pyval) : BeartypeConf :=
  let is_default :=
    py_is_class (arg_warning_cls_on_decorator_exception a)
      _BeartypeConfReduceDecoratorExceptionToWarningDefault in
  let warning_cls :=
    if is_default then VNone
    else arg_warning_cls_on_decorator_exception a in
  {| _claw_is_pep526 := arg_claw_is_pep526 a;
     _conf_args := a;
     _conf_kwargs :=
       [("claw_is_pep526", arg_claw_is_pep526 a);
        ("is_color", is_color);
        ("is_debug", arg_is_debug a);
        ("is_pep484_tower", arg_is_pep484_tower a);
        ("strategy", arg_strategy a);
        ("warning_cls_on_decorator_exception", warning_cls)];
     _is_color := is_color;
     _is_debug := arg_is_debug a;
     _is_pep484_tower := arg_is_pep484_tower a;
     _is_warning_cls_on_decorator_exception_set := negb is_default;
     _warning_cls_on_decorator_exception := warning_cls;
     _strategy := arg_strategy a |}.

(** The [kwargs] property. *)
Definition kwargs (self : BeartypeConf) : list (string * pyval) :=
  _conf_kwargs self.

(** The read-only properties, as a dictionary from their names. *)
Definition properties (self : BeartypeConf) : list (string * pyval) :=
  [("claw_is_pep526", _claw_is_pep526 self);
   ("is_color", _is_color self);
   ("is_debug", _is_debug self);
   ("is_pep484_tower", _is_pep484_tower self);
   ("strategy", _strategy self);
   ("warning_cls_on_decorator_exception",
    _warning_cls_on_decorator_exception self)].

(** A keyword of a call of [BeartypeConf] with the dictionary [kw]
    unpacked into keywords, or the default of the parameter when the
    dictionary has no such key. *)
Definition keyword (kw : list (string * pyval)) (name : string)
  (default : pyval) : pyval :=
  match assoc_get kw name with
  | Some v => v
  | None => default
  end.

(** The tuple [conf_args] of that call, for a dictionary whose keys are
    parameter names. *)
Definition args_of_kwargs (kw : list (string * pyval)) : ConfArgs :=
  {| arg_claw_is_pep526 :=
       keyword kw "claw_is_pep526" (arg_claw_is_pep526 default_args);
     arg_is_color := keyword kw "is_color" (arg_is_color default_args);
     arg_is_debug := keyword kw "is_debug" (arg_is_debug default_args);
     arg_is_pep484_tower :=
       keyword kw "is_pep484_tower" (arg_is_pep484_tower default_args);
     arg_strategy := keyword kw "strategy" (arg_strategy default_args);
     arg_warning_cls_on_decorator_exception :=
       keyword kw "warning_cls_on_decorator_exception"
         (arg_warning_cls_on_decorator_exception default_args) |}.

(** Every entry of the dictionary is the [_conf_args] of the
    configuration it refers to. *)
Definition keys_match (w : World) : Prop :=
  forall k r, In (k, r) (beartype_conf_args_to_conf w) ->
    exists o, nth_error (heap w) r = Some o /\ _conf_args o = k.

(** Every configuration of the heap was initialized from valid
    parameters and a tri-state [is_color]. *)
Definition all_initialized (w : World) : Prop :=
  forall r o, nth_error (heap w) r = Some o ->
    exists a c, o = initialized a c /\ validate a = None /\
                isinstance_NoneTypeOr_bool c = true.

(** What the slots of a configuration are guaranteed to hold. *)
Definition slots_typed (o : BeartypeConf) : bool :=
  isinstance_bool (_claw_is_pep526 o) &&
  isinstance_NoneTypeOr_bool (_is_color o) &&
  isinstance_bool (_is_debug o) &&
  isinstance_bool (_is_pep484_tower o) &&
  isinstance_BeartypeStrategy (_strategy o) &&
  is_none_or_warning_cls (_warning_cls_on_decorator_exception o) &&
  negb (py_is_class (_warning_cls_on_decorator_exception o)
          _BeartypeConfReduceDecoratorExceptionToWarningDefault).

(** [BeartypeConf(is_color=...)] with every other parameter passed
    explicitly. *)
Definition args_color (v : pyval) : ConfArgs :=
  {| arg_claw_is_pep526 := VBool true;
     arg_is_color := v;
     arg_is_debug := VBool false;
     arg_is_pep484_tower := VBool false;
     arg_strategy := VStrategy O1;
     arg_warning_cls_on_decorator_exception := VNone |}.

End ConfMore.

(* ===================================================================== *)
(** * [beartype/door/_cls/pep/pep484585/doorpep484585generic.py] *)
(* ===================================================================== *)

Module Door.

(** What [_is_subhint_branch] reads of a type hint wrapper: the
    unsubscripted origin type, whether its arguments are ignorable, and
    the wrappers of its child hints. *)
Inductive TypeHint : Type :=
  mkTypeHint (origin : string) (is_args_ignorable : bool)
             (args_wrapped_tuple : list TypeHint).

Definition _origin (t : TypeHint) : string :=
  match t with mkTypeHint origin _ _ => origin end.

Definition _is_args_ignorable (t : TypeHint) : bool :=
  match t with mkTypeHint _ ignorable _ => ignorable end.

Definition _args_wrapped_tuple (t : TypeHint) : list TypeHint :=
  match t with mkTypeHint _ _ args => args end.

Section Subhint.

(** [issubclass] on origin types. *)
Variable issubclass : string -> string -> bool.

(** [self_child <= branch_child]: the comparison of two wrappers,
    declared by the [TypeHint] superclass. *)
Variable le : TypeHint -> TypeHint -> bool.

(** [all(self_child <= branch_child for ... in zip(xs, ys))]: [zip] stops
    at the shorter tuple and [all] at the first pair that fails. *)
Fixpoint all_zip (xs ys : list TypeHint) : bool :=
  match xs, ys with
  | x :: xs', y :: ys' => if le x y then all_zip xs' ys' else false
  | _, _ => true
  end.

(** [GenericTypeHint._is_subhint_branch]. The third test,
    [not isinstance(branch, (type(self), TypeHint))], is false for every
    wrapper. *)
Definition _is_subhint_branch (self branch : TypeHint) : bool :=
  if negb (issubclass (_origin self) (_origin branch)) then false
  else if _is_args_ignorable branch then true
  else all_zip (_args_wrapped_tuple self) (_args_wrapped_tuple branch).

End Subhint.

(** [MuhGeneric], [MuhGeneric[int]] and [MuhGeneric[str]]. *)
Definition MuhGeneric : TypeHint := mkTypeHint "MuhGeneric" true [].

Definition MuhGeneric_of (arg : string) : TypeHint :=
  mkTypeHint "MuhGeneric" false [mkTypeHint arg true []].

(** Sample relations: a class is a subclass of itself only, and a wrapper
    is below another one when their origins are the same. *)
Definition issubclass_sample (a b : string) : bool := String.eqb a b.

Definition le_sample (a b : TypeHint) : bool :=
  String.eqb (_origin a) (_origin b).

End Door.

(* ===================================================================== *)
(** * Facts: [BeartypeConf.__new__] *)
(* ===================================================================== *)

Module ConfFacts.
Import Conf ConfInv.

Lemma BeartypeStrategy_eqb_eq a b : BeartypeStrategy_eqb a b = true <-> a = b.
Proof. destruct a, b; simpl; split; congruence. Qed.

Lemma Z_of_bool_inj x y : Z_of_bool x = Z_of_bool y -> x = y.
Proof. destruct x, y; simpl; congruence. Qed.

Lemma py_eq_refl a : py_eq a a = true.
Proof.
  destruct a; simpl; auto using Bool.eqb_reflx, Z.eqb_refl, String.eqb_refl.
  apply BeartypeStrategy_eqb_eq; reflexivity.
Qed.

Lemma py_eq_sym a b : py_eq a b = py_eq b a.
Proof.
  destruct a, b; simpl; auto using Z.eqb_sym, String.eqb_sym.
  - destruct b, b0; reflexivity.
  - destruct s, s0; reflexivity.
Qed.

Lemma py_eq_trans a b c :
  py_eq a b = true -> py_eq b c = true -> py_eq a c = true.
Proof.
  destruct a, b, c; simpl; try congruence;
    rewrite ?Bool.eqb_true_iff, ?Z.eqb_eq, ?String.eqb_eq,
            ?BeartypeStrategy_eqb_eq;
    try congruence.
  intros H1 H2. apply Z_of_bool_inj. congruence.
Qed.

Lemma conf_args_eq_refl a : conf_args_eq a a = true.
Proof. unfold conf_args_eq. rewrite !py_eq_refl. reflexivity. Qed.

Lemma conf_args_eq_sym a b : conf_args_eq a b = conf_args_eq b a.
Proof.
  unfold conf_args_eq.
  rewrite (py_eq_sym (arg_claw_is_pep526 a)), (py_eq_sym (arg_is_color a)),
    (py_eq_sym (arg_is_debug a)), (py_eq_sym (arg_is_pep484_tower a)),
    (py_eq_sym (arg_strategy a)),
    (py_eq_sym (arg_warning_cls_on_decorator_exception a)).
  reflexivity.
Qed.

Lemma conf_args_eq_trans a b c :
  conf_args_eq a b = true -> conf_args_eq b c = true ->
  conf_args_eq a c = true.
Proof.
  unfold conf_args_eq. rewrite !Bool.andb_true_iff.
  intros [[[[[A1 A2] A3] A4] A5] A6] [[[[[B1 B2] B3] B4] B5] B6].
  repeat split; eapply py_eq_trans; eassumption.
Qed.

(** Looking up two equal tuples finds the same entry. *)
Lemma dict_get_eq_key d k1 k2 :
  conf_args_eq k1 k2 = true -> dict_get d k1 = dict_get d k2.
Proof.
  intros E. induction d as [|[k r] d IH]; simpl; [reflexivity|].
  destruct (conf_args_eq k k1) eqn:E1.
  - rewrite (conf_args_eq_trans _ _ _ E1 E). reflexivity.
  - destruct (conf_args_eq k k2) eqn:E2; [|exact IH].
    rewrite conf_args_eq_sym in E.
    rewrite (conf_args_eq_trans _ _ _ E2 E) in E1. discriminate.
Qed.

Lemma dict_get_In d k r : dict_get d k = Some r -> exists k', In (k', r) d.
Proof.
  induction d as [|[k' r'] d IH]; simpl; [discriminate|].
  destruct (conf_args_eq k' k).
  - intros [= ->]. eauto.
  - intros H. destruct (IH H) as [k'' ?]. eauto.
Qed.

(** The three ways the locked body can end. *)
Lemma new_locked_cases a s w :
  (exists r, dict_get (beartype_conf_args_to_conf w) a = Some r /\
             BeartypeConf___new___locked a s w = (Returned r, w)) \/
  (dict_get (beartype_conf_args_to_conf w) a = None /\
   exists e, (e = BeartypeConfException \/ e = BeartypeConfShellVarException) /\
     exists t, (t = [] \/ t = [Allocate]) /\
     BeartypeConf___new___locked a s w =
       (Raised e, {| beartype_conf_args_to_conf := beartype_conf_args_to_conf w;
                     heap := heap w; trace := trace w ++ t |})) \/
  (dict_get (beartype_conf_args_to_conf w) a = None /\
   exists o, _conf_args o = a /\
     BeartypeConf___new___locked a s w =
       (Returned (List.length (heap w)),
        {| beartype_conf_args_to_conf :=
             (a, List.length (heap w)) :: beartype_conf_args_to_conf w;
           heap := heap w ++ [o];
           trace := trace w ++ [Allocate] |})).
Proof.
  unfold BeartypeConf___new___locked.
  destruct (dict_get (beartype_conf_args_to_conf w) a) as [r|] eqn:G.
  - left. eauto.
  - right. destruct (validate a) as [e|] eqn:V.
    + left. split; [reflexivity|]. exists e. split.
      * unfold validate in V.
        repeat match type of V with
               | (if ?c then _ else _) = _ => destruct c
               end; inversion V; auto.
      * exists []. split; [auto|]. rewrite app_nil_r. destruct w; reflexivity.
    + destruct s as [value|]; cbv beta iota zeta.
      * destruct (assoc_get SHELL_VAR_CONF_IS_COLOR_VALUE_TO_OBJ value) eqn:S.
        -- right. split; [reflexivity|]. eexists. split; [|reflexivity].
           reflexivity.
        -- left. split; [reflexivity|]. exists BeartypeConfShellVarException.
           split; [auto|]. exists [Allocate]. split; [auto|]. reflexivity.
      * right. split; [reflexivity|]. eexists. split; [|reflexivity].
        reflexivity.
Qed.

(** The three ways a call of [__new__] can end: a hit, an exception, a new
    configuration. *)
Lemma new_cases a s w r w' :
  BeartypeConf___new__ a s w = (r, w') ->
  (exists x, dict_get (beartype_conf_args_to_conf w) a = Some x /\
     r = Returned x /\
     beartype_conf_args_to_conf w' = beartype_conf_args_to_conf w /\
     heap w' = heap w /\
     trace w' = trace w ++ [LockEnter; LockExit]) \/
  (dict_get (beartype_conf_args_to_conf w) a = None /\
   exists e, r = Raised e /\
     (e = BeartypeConfException \/ e = BeartypeConfShellVarException) /\
     beartype_conf_args_to_conf w' = beartype_conf_args_to_conf w /\
     heap w' = heap w /\
     exists t, (t = [] \/ t = [Allocate]) /\
       trace w' = trace w ++ [LockEnter] ++ t ++ [LockExit]) \/
  (dict_get (beartype_conf_args_to_conf w) a = None /\
   exists o, _conf_args o = a /\
     r = Returned (List.length (heap w)) /\
     beartype_conf_args_to_conf w' =
       (a, List.length (heap w)) :: beartype_conf_args_to_conf w /\
     heap w' = heap w ++ [o] /\
     trace w' = trace w ++ [LockEnter; Allocate; LockExit]).
Proof.
  unfold BeartypeConf___new__.
  destruct (new_locked_cases a s (log LockEnter w))
    as [(x & G & E) | [(G & e & He & t & Ht & E) | (G & o & Ho & E)]];
    rewrite E; intros [= <- <-]; simpl in *.
  - left. exists x. repeat split; auto. rewrite <- app_assoc. reflexivity.
  - right; left. split; [exact G|]. exists e. repeat split; auto.
    exists t. split; [exact Ht|]. rewrite <- !app_assoc. reflexivity.
  - right; right. split; [exact G|]. exists o. repeat split; auto.
    rewrite <- !app_assoc. reflexivity.
Qed.

Lemma wf_empty : wf World_empty.
Proof.
  split.
  - intros k r [].
  - intros r o H. destruct r; discriminate.
Qed.

(** A call keeps the dictionary and the heap in step. *)
Lemma wf_new a s w : wf w -> wf (snd (BeartypeConf___new__ a s w)).
Proof.
  intros [RV AC].
  destruct (BeartypeConf___new__ a s w) as [res w'] eqn:E. simpl.
  destruct (new_cases _ _ _ _ _ E)
    as [(x & G & _ & Hc & Hh & _) |
        [(G & e & _ & _ & Hc & Hh & _) | (G & o & Ho & _ & Hc & Hh & _)]].
  - split; unfold refs_valid, all_cached; rewrite Hc, Hh; assumption.
  - split; unfold refs_valid, all_cached; rewrite Hc, Hh; assumption.
  - split; unfold refs_valid, all_cached; rewrite Hc, Hh.
    + intros k r [[= <- <-] | I].
      * rewrite length_app. simpl. lia.
      * rewrite length_app. specialize (RV _ _ I). lia.
    + intros r o' N. simpl.
      destruct (Nat.lt_ge_cases r (List.length (heap w))) as [L | L].
      * rewrite nth_error_app1 in N by exact L.
        specialize (AC _ _ N).
        destruct (conf_args_eq a (_conf_args o')) eqn:Q; [|exact AC].
        rewrite (dict_get_eq_key _ _ _ Q), AC in G. discriminate.
      * rewrite nth_error_app2 in N by exact L.
        destruct (r - List.length (heap w)) as [|n] eqn:D.
        -- simpl in N. injection N as <-. rewrite Ho, conf_args_eq_refl.
           f_equal. lia.
        -- simpl in N. destruct n; discriminate.
Qed.

Lemma wf_run cs : forall w, wf w -> wf (run cs w).
Proof.
  induction cs as [|[a s] cs IH]; intros w H; simpl; [exact H|].
  apply IH, wf_new, H.
Qed.

(** Configurations are never changed or dropped. *)
Lemma heap_new a s w r o :
  nth_error (heap w) r = Some o ->
  nth_error (heap (snd (BeartypeConf___new__ a s w))) r = Some o.
Proof.
  intros N. destruct (BeartypeConf___new__ a s w) as [x w'] eqn:E. simpl.
  destruct (new_cases _ _ _ _ _ E)
    as [(? & _ & _ & _ & Hh & _) |
        [(_ & ? & _ & _ & _ & Hh & _) | (_ & ? & _ & _ & _ & Hh & _)]];
    rewrite Hh; auto.
  rewrite nth_error_app1; [exact N|]. apply nth_error_Some. congruence.
Qed.

Lemma heap_run cs : forall w r o,
  nth_error (heap w) r = Some o -> nth_error (heap (run cs w)) r = Some o.
Proof.
  induction cs as [|[a s] cs IH]; intros w r o N; simpl; [exact N|].
  apply IH, heap_new, N.
Qed.

(** A returned reference refers to a configuration. *)
Lemma new_returned a s w r w' :
  wf w -> BeartypeConf___new__ a s w = (Returned r, w') ->
  exists o, nth_error (heap w') r = Some o.
Proof.
  intros [RV _] E.
  destruct (new_cases _ _ _ _ _ E)
    as [(x & G & [= ->] & _ & Hh & _) |
        [(_ & e & [=] & _) | (_ & o & _ & [= ->] & _ & Hh & _)]];
    rewrite Hh.
  - destruct (dict_get_In _ _ _ G) as [k I]. specialize (RV _ _ I).
    destruct (nth_error (heap w) x) eqn:N; [eauto|].
    apply nth_error_None in N. lia.
  - exists o. rewrite nth_error_app2 by lia. rewrite Nat.sub_diag. reflexivity.
Qed.






(** What a call returns or raises depends on the dictionary, the number of
    configurations, the parameters and the shell variable only. *)
Lemma new_outcome_same a s w w' :
  beartype_conf_args_to_conf w' = beartype_conf_args_to_conf w ->
  heap w' = heap w ->
  fst (BeartypeConf___new__ a s w') = fst (BeartypeConf___new__ a s w).
Proof.
  intros Hc Hh. unfold BeartypeConf___new__, BeartypeConf___new___locked.
  cbn [log beartype_conf_args_to_conf heap trace]. rewrite Hc, Hh.
  destruct (dict_get (beartype_conf_args_to_conf w) a); [reflexivity|].
  destruct (validate a); [reflexivity|].
  destruct s as [value|]; [|reflexivity].
  destruct (assoc_get SHELL_VAR_CONF_IS_COLOR_VALUE_TO_OBJ value);
    reflexivity.
Qed.

(** The shell variable set to an unrecognized string: the call raises
    after allocating, and nothing is cached. *)
Example BeartypeConf_new_shell_var_unrecognized :
  BeartypeConf___new__ default_args (Some "yes") World_empty =
  (Raised BeartypeConfShellVarException,
   {| beartype_conf_args_to_conf := []; heap := [];
      trace := [LockEnter; Allocate; LockExit] |}).
Proof. reflexivity. Qed.

(** The shell variable overrides [is_color], so two configurations that
    differ in the [is_color] parameter alone are distinct objects with the
    same [_is_color] slot; they differ in [_conf_args]. *)
Example BeartypeConf_new_shell_var_overrides :
  let color v :=
    {| arg_claw_is_pep526 := VBool true; arg_is_color := v;
       arg_is_debug := VBool false; arg_is_pep484_tower := VBool false;
       arg_strategy := VStrategy O1;
       arg_warning_cls_on_decorator_exception := VNone |} in
  let w := run [(color (VBool true), Some "True");
                (color (VBool false), Some "True")] World_empty in
  option_map _is_color (nth_error (heap w) 0) = Some (VBool true) /\
  option_map _is_color (nth_error (heap w) 1) = Some (VBool true) /\
  option_map _conf_args (nth_error (heap w) 0) <>
  option_map _conf_args (nth_error (heap w) 1).
Proof. vm_compute. repeat split; congruence. Qed.

End ConfFacts.

(* ===================================================================== *)
(** * Facts: the union flattening getter and code factory *)
(* ===================================================================== *)

Module UnionFacts.
Import Hints Union UnionInv.

Section WithSanifier.

Variable sanify_hint_child :
  hint -> Conf.BeartypeConf -> option (list string) -> TypeVarToHint ->
  string -> outcome HintOrHintSanifiedData.

Local Abbreviation getter_func :=
  (_get_hint_pep484604_union_args_flattened_func sanify_hint_child).
Local Abbreviation getter :=
  (_get_hint_pep484604_union_args_flattened sanify_hint_child).
Local Abbreviation make :=
  (make_hint_pep484604_check_expr sanify_hint_child).

(** The loop appends, child by child and in order, what [expand_child]
    gives for the sanified child. *)
Lemma flatten_loop_spec hints_meta hint_childs : forall acc,
  flatten_loop sanify_hint_child hints_meta hint_childs acc =
  match sanify_childs sanify_hint_child hints_meta hint_childs with
  | Raised e => Raised e
  | Returned xs => Returned (acc ++ flat_map expand_child xs)
  end.
Proof.
  induction hint_childs as [|h hs IH]; intros acc; simpl.
  - rewrite app_nil_r. reflexivity.
  - destruct (sanify_hint_child h (conf hints_meta) (cls_stack hints_meta)
                (typevar_to_hint (hint_curr_meta hints_meta))
                (exception_prefix hints_meta)) as [x|e]; [|reflexivity].
    rewrite IH.
    destruct (sanify_childs sanify_hint_child hints_meta hs) as [xs|e];
      [|reflexivity].
    f_equal. simpl. unfold expand_child, is_union_child, is_union.
    destruct (in_HINT_SIGNS_UNION
                (get_hint_pep_sign_or_none (get_hint_or_sane_hint x)));
      [destruct x|]; simpl; rewrite <- app_assoc; reflexivity.
Qed.

Lemma flattened_value_spec hints_meta :
  flattened_value sanify_hint_child hints_meta =
  match get_hint_pep_args (meta_hint (hint_curr_meta hints_meta)) with
  | [] => Raised AssertionError
  | hint_childs =>
    match sanify_childs sanify_hint_child hints_meta hint_childs with
    | Raised e => Raised e
    | Returned xs => Returned (flat_map expand_child xs)
    end
  end.
Proof.
  unfold flattened_value.
  destruct (get_hint_pep_args (meta_hint (hint_curr_meta hints_meta)));
    [reflexivity|].
  apply flatten_loop_spec.
Qed.

(** One run of the undecorated getter: what it returns and what it does
    to the process state. *)
Lemma getter_func_run hints_meta w :
  getter_func hints_meta w =
  match get_hint_pep_args (meta_hint (hint_curr_meta hints_meta)) with
  | [] =>
      (Raised AssertionError,
       {| pools := pools w; flattened := flattened w;
          effects := effects w ++ [Print (hint_curr_meta hints_meta)] |})
  | _ :: _ =>
    let (o, p) := acquire_object_typed PoolList (pools w) in
    match flattened_value sanify_hint_child hints_meta with
    | Raised e =>
        (Raised e,
         {| pools := p; flattened := flattened w;
            effects := effects w ++ [Print (hint_curr_meta hints_meta);
                                     Acquire PoolList o] |})
    | Returned v =>
        (Returned v,
         {| pools := release_object_typed PoolList o p;
            flattened := flattened w;
            effects := effects w ++ [Print (hint_curr_meta hints_meta);
                                     Acquire PoolList o;
                                     Release PoolList o] |})
    end
  end.
Proof.
  unfold _get_hint_pep484604_union_args_flattened_func, flattened_value,
    bind, emit, acquire, release, lift, ret, raise.
  destruct (get_hint_pep_args (meta_hint (hint_curr_meta hints_meta)))
    as [|h hs]; [reflexivity|].
  cbn [pools flattened effects].
  destruct (acquire_object_typed PoolList (pools w)) as [o p].
  destruct (flatten_loop sanify_hint_child hints_meta (h :: hs) []);
    cbn [pools flattened effects]; rewrite <- ?app_assoc; reflexivity.
Qed.

Lemma fst_getter_func hints_meta w :
  fst (getter_func hints_meta w) =
  flattened_value sanify_hint_child hints_meta.
Proof.
  rewrite getter_func_run. unfold flattened_value.
  destruct (get_hint_pep_args (meta_hint (hint_curr_meta hints_meta)))
    as [|h hs]; [reflexivity|].
  destruct (acquire_object_typed PoolList (pools w)) as [o p].
  destruct (flatten_loop sanify_hint_child hints_meta (h :: hs) []);
    reflexivity.
Qed.

(** The decorated getter on a hit. *)
Lemma getter_hit hints_meta w v :
  memo_get (flattened w) hints_meta = Some v ->
  getter hints_meta w = (Returned v, w).
Proof.
  intros H. unfold _get_hint_pep484604_union_args_flattened, callable_cached.
  rewrite H. reflexivity.
Qed.

(** The decorated getter on a miss. *)
Lemma getter_miss hints_meta w :
  memo_get (flattened w) hints_meta = None ->
  getter hints_meta w =
  match getter_func hints_meta w with
  | (Returned v, w') =>
      (Returned v,
       {| pools := pools w'; flattened := (hints_meta, v) :: flattened w';
          effects := effects w' |})
  | (Raised e, w') => (Raised e, w')
  end.
Proof.
  intros H. unfold _get_hint_pep484604_union_args_flattened, callable_cached.
  rewrite H. reflexivity.
Qed.

(** With a sound memo table the decorated getter returns or raises what
    the undecorated one does. *)
Lemma fst_getter hints_meta w :
  memo_ok sanify_hint_child w ->
  fst (getter hints_meta w) = flattened_value sanify_hint_child hints_meta.
Proof.
  intros OK.
  destruct (memo_get (flattened w) hints_meta) as [v|] eqn:G.
  - rewrite (getter_hit _ _ _ G). simpl. symmetry. apply OK, G.
  - rewrite (getter_miss _ _ G), <- (fst_getter_func hints_meta w).
    destruct (getter_func hints_meta w) as [[v|e] w']; reflexivity.
Qed.

Lemma memo_ok_empty : memo_ok sanify_hint_child World_empty.
Proof. intros k v H. discriminate. Qed.

Lemma getter_func_flattened hints_meta w :
  flattened (snd (getter_func hints_meta w)) = flattened w.
Proof.
  rewrite getter_func_run.
  destruct (get_hint_pep_args (meta_hint (hint_curr_meta hints_meta)));
    [reflexivity|].
  destruct (acquire_object_typed PoolList (pools w)).
  destruct (flattened_value sanify_hint_child hints_meta); reflexivity.
Qed.

(** The decorated getter keeps the memo table sound. *)
Lemma memo_ok_getter hints_meta w :
  memo_ok sanify_hint_child w ->
  memo_ok sanify_hint_child (snd (getter hints_meta w)).
Proof.
  intros OK.
  destruct (memo_get (flattened w) hints_meta) as [v|] eqn:G.
  - rewrite (getter_hit _ _ _ G). exact OK.
  - rewrite (getter_miss _ _ G).
    pose proof (fst_getter_func hints_meta w) as F.
    pose proof (getter_func_flattened hints_meta w) as Hf.
    destruct (getter_func hints_meta w) as [[v|e] w'];
      cbn [fst snd] in *; intros k v' H.
    + cbn [flattened memo_get] in H. rewrite Hf in H.
      destruct (HintsMeta_eq_dec hints_meta k) as [<-|].
      * injection H as <-. symmetry. exact F.
      * apply OK, H.
    + rewrite Hf in H. apply OK, H.
Qed.

(** *** Flattening *)




End WithSanifier.

Section Acceptance.

Variable value : Type.
Variable isinstance : value -> string -> bool.
Variable sat_pep : string -> list hint -> TypeVarToHint -> value -> bool.




End Acceptance.




(** Scenario C of the spec: [Union[int, Union[str, float]]] and
    [Union[int, str, float]] flatten to the same three children. *)
Example union_nested_flattens_like_flat :
  fst (_get_hint_pep484604_union_args_flattened sanify_plain
         (meta_for union_nested [] EmptyString) World_empty) =
  fst (_get_hint_pep484604_union_args_flattened sanify_plain
         (meta_for union_flat [] EmptyString) World_empty).
Proof. reflexivity. Qed.

(** *** The factory as a whole *)

(** One run of the factory: the getter, then the two sets borrowed and
    released around the code written to the metadata. *)
Lemma make_run sanify_hint_child hints_meta w :
  make_hint_pep484604_check_expr sanify_hint_child hints_meta w =
  match _get_hint_pep484604_union_args_flattened sanify_hint_child
          hints_meta w with
  | (Raised e, w1) => (Raised e, w1)
  | (Returned childs, w1) =>
    let (o1, p1) := acquire_object_typed PoolSet (pools w1) in
    let (o2, p2) := acquire_object_typed PoolSet p1 in
    (Returned (generated childs hints_meta),
     {| pools := release_object_typed PoolSet o2
                   (release_object_typed PoolSet o1 p2);
        flattened := flattened w1;
        effects := effects w1 ++ [Acquire PoolSet o1; Acquire PoolSet o2;
                                  Release PoolSet o1; Release PoolSet o2] |})
  end.
Proof.
  unfold make_hint_pep484604_check_expr, generated, bind.
  destruct (_get_hint_pep484604_union_args_flattened sanify_hint_child
              hints_meta w) as [[childs|e] w1]; [|reflexivity].
  unfold acquire. cbn [pools flattened effects].
  destruct (acquire_object_typed PoolSet (pools w1)) as [o1 p1].
  cbn [pools flattened effects].
  destruct (acquire_object_typed PoolSet p1) as [o2 p2].
  destruct (filter_childs childs [] []) as [nonpep pep].
  unfold release, ret. cbn [pools flattened effects].
  rewrite <- !app_assoc. reflexivity.
Qed.

(** One run of the decorated getter on a miss, spelled out. *)
Lemma getter_miss_run sanify_hint_child hints_meta w :
  memo_get (flattened w) hints_meta = None ->
  _get_hint_pep484604_union_args_flattened sanify_hint_child hints_meta w =
  match get_hint_pep_args (meta_hint (hint_curr_meta hints_meta)) with
  | [] =>
      (Raised AssertionError,
       {| pools := pools w; flattened := flattened w;
          effects := effects w ++ [Print (hint_curr_meta hints_meta)] |})
  | _ :: _ =>
    let (o, p) := acquire_object_typed PoolList (pools w) in
    match flattened_value sanify_hint_child hints_meta with
    | Raised e =>
        (Raised e,
         {| pools := p; flattened := flattened w;
            effects := effects w ++ [Print (hint_curr_meta hints_meta);
                                     Acquire PoolList o] |})
    | Returned v =>
        (Returned v,
         {| pools := release_object_typed PoolList o p;
            flattened := (hints_meta, v) :: flattened w;
            effects := effects w ++ [Print (hint_curr_meta hints_meta);
                                     Acquire PoolList o;
                                     Release PoolList o] |})
    end
  end.
Proof.
  intros G. rewrite (getter_miss _ _ _ G), getter_func_run.
  destruct (get_hint_pep_args (meta_hint (hint_curr_meta hints_meta)));
    [reflexivity|].
  destruct (acquire_object_typed PoolList (pools w)) as [o p].
  destruct (flattened_value sanify_hint_child hints_meta); reflexivity.
Qed.

Lemma new_effects_app w w' evs :
  effects w' = effects w ++ evs -> new_effects w w' = evs.
Proof.
  intros H. unfold new_effects. rewrite H, skipn_app, skipn_all, Nat.sub_diag.
  reflexivity.
Qed.

Lemma new_effects_mk w p f evs :
  new_effects w {| pools := p; flattened := f; effects := effects w ++ evs |}
  = evs.
Proof. apply new_effects_app. reflexivity. Qed.

(** C8. A childless union does not pass through the union compiler
    silently. For a union hint with no child hints, the memoized getter
    and the code factory both raise [AssertionError]; the only thing done
    before is the one line printed by the one run of the getter: no pool
    object is borrowed, nothing is memoized, no code is written and the
    call is not made again. *)
Theorem childless_union_asserts sanify_hint_child hints_meta w :
  memo_ok sanify_hint_child w ->
  get_hint_pep_args (meta_hint (hint_curr_meta hints_meta)) = [] ->
  _get_hint_pep484604_union_args_flattened sanify_hint_child hints_meta w =
    (Raised AssertionError,
     {| pools := pools w; flattened := flattened w;
        effects := effects w ++ [Print (hint_curr_meta hints_meta)] |}) /\
  make_hint_pep484604_check_expr sanify_hint_child hints_meta w =
    (Raised AssertionError,
     {| pools := pools w; flattened := flattened w;
        effects := effects w ++ [Print (hint_curr_meta hints_meta)] |}).
Proof.
  intros OK H.
  assert (G : memo_get (flattened w) hints_meta = None).
  { destruct (memo_get (flattened w) hints_meta) as [v|] eqn:G; [|reflexivity].
    apply OK in G. unfold flattened_value in G. rewrite H in G. discriminate. }
  assert (E : _get_hint_pep484604_union_args_flattened sanify_hint_child
                hints_meta w =
              (Raised AssertionError,
               {| pools := pools w; flattened := flattened w;
                  effects := effects w ++ [Print (hint_curr_meta hints_meta)] |})).
  { rewrite (getter_miss_run _ _ _ G), H. reflexivity. }
  split; [exact E|]. rewrite make_run, E. reflexivity.
Qed.

(** The unsubscripted union factory, with nothing memoized yet. *)
Lemma childless_union_asserts_witness :
  _get_hint_pep484604_union_args_flattened sanify_plain
    (meta_for union_childless [] EmptyString) World_empty =
    (Raised AssertionError,
     {| pools := pools World_empty; flattened := flattened World_empty;
        effects := effects World_empty ++
                   [Print (hint_curr_meta (meta_for union_childless [] EmptyString))] |})
  /\
  make_hint_pep484604_check_expr sanify_plain
    (meta_for union_childless [] EmptyString) World_empty =
    (Raised AssertionError,
     {| pools := pools World_empty; flattened := flattened World_empty;
        effects := effects World_empty ++
                   [Print (hint_curr_meta (meta_for union_childless [] EmptyString))] |}).
Proof.
  apply (childless_union_asserts sanify_plain
           (meta_for union_childless [] EmptyString) World_empty).
  - intros k v H. discriminate H.
  - reflexivity.
Defined.

(** *** Pool objects *)

Lemma acquire_set_keeps_list p :
  pool_list (snd (acquire_object_typed PoolSet p)) = pool_list p.
Proof.
  unfold acquire_object_typed. simpl. destruct (pool_set p); reflexivity.
Qed.

Lemma no_member_nil {A} (l : list A) : (forall x, ~ In x l) -> l = [].
Proof.
  destruct l as [|a l]; [reflexivity|]. intros H. destruct (H a). left.
  reflexivity.
Qed.

Lemma outstanding_two_sets o1 o2 :
  outstanding []
    [Acquire PoolSet o1; Acquire PoolSet o2;
     Release PoolSet o1; Release PoolSet o2] = [].
Proof.
  cbn [outstanding]. apply no_member_nil. intros x I.
  apply in_remove in I. destruct I as [I N2].
  apply in_remove in I. destruct I as [I N1].
  destruct I as [<- | [<- | []]]; congruence.
Qed.

Lemma outstanding_list_then_sets m o o1 o2 :
  outstanding []
    ([Print m; Acquire PoolList o; Release PoolList o] ++
     [Acquire PoolSet o1; Acquire PoolSet o2;
      Release PoolSet o1; Release PoolSet o2]) = [].
Proof.
  cbn [app outstanding].
  replace (remove borrow_eq_dec (PoolList, o) [(PoolList, o)])
    with (@nil (PoolKind * nat)).
  - apply outstanding_two_sets.
  - symmetry. apply no_member_nil. intros x I.
    apply in_remove in I. destruct I as [[<- | []] N]. congruence.
Qed.

(** C3, as amended. Every pool object the union compiler acquires (the
    scratch list of the getter and the two scratch sets of the factory) is
    released back to its pool on every path on which the invocation
    returns: nothing acquired during the call is outstanding afterwards,
    and each acquired object is in the pool of its type. When the
    invocation raises, either the union is childless and nothing was
    acquired, or sanifying a child hint raised: the exception then leaves
    the getter with its scratch list acquired and not released, before the
    two sets are acquired. *)
Theorem pool_objects_released_on_return sanify_hint_child hints_meta w r w' :
  make_hint_pep484604_check_expr sanify_hint_child hints_meta w = (r, w') ->
  (forall hints_meta', r = Returned hints_meta' ->
     outstanding [] (new_effects w w') = [] /\
     forall k o, In (Acquire k o) (new_effects w w') ->
                 In o (pool_of k (pools w'))) /\
  (forall e, r = Raised e ->
     (get_hint_pep_args (meta_hint (hint_curr_meta hints_meta)) = [] /\
      e = AssertionError /\
      outstanding [] (new_effects w w') = []) \/
     (exists o,
        flattened_value sanify_hint_child hints_meta = Raised e /\
        new_effects w w' =
          [Print (hint_curr_meta hints_meta); Acquire PoolList o] /\
        outstanding [] (new_effects w w') = [(PoolList, o)])).
Proof.
  rewrite make_run.
  destruct (memo_get (flattened w) hints_meta) as [v|] eqn:G.
  - (* hit *)
    rewrite (getter_hit _ _ _ _ G).
    destruct (acquire_object_typed PoolSet (pools w)) as [o1 p1] eqn:A1.
    destruct (acquire_object_typed PoolSet p1) as [o2 p2] eqn:A2.
    intros [= <- <-]. split; [|discriminate].
    intros _ _.
    rewrite new_effects_mk.
    split; [apply outstanding_two_sets|].
    intros k o [[= <- <-] | [[= <- <-] | [[=] | [[=] | []]]]]; simpl; auto.
  - (* miss *)
    rewrite (getter_miss_run _ _ _ G).
    destruct (get_hint_pep_args (meta_hint (hint_curr_meta hints_meta)))
      as [|h hs].
    + intros [= <- <-]. split; [discriminate|].
      intros e [= <-]. left. repeat split.
      rewrite new_effects_mk.
      reflexivity.
    + destruct (acquire_object_typed PoolList (pools w)) as [o p] eqn:A.
      destruct (flattened_value sanify_hint_child hints_meta) as [v|e] eqn:F.
      * cbn [pools flattened effects].
        destruct (acquire_object_typed PoolSet
                    (release_object_typed PoolList o p)) as [o1 p1] eqn:A1.
        destruct (acquire_object_typed PoolSet p1) as [o2 p2] eqn:A2.
        intros [= <- <-]. split; [|discriminate].
        intros _ _.
        rewrite <- app_assoc, new_effects_mk.
        split; [apply outstanding_list_then_sets|].
        pose proof (acquire_set_keeps_list (release_object_typed PoolList o p))
          as K1. rewrite A1 in K1.
        pose proof (acquire_set_keeps_list p1) as K2. rewrite A2 in K2.
        simpl in K1, K2.
        intros k o'
          [[=] | [[= <- <-] | [[=] | [[= <- <-] | [[= <- <-] | [[=] | [[=] | []]]]]]]];
          simpl; auto.
        rewrite K2, K1. left. reflexivity.
      * intros [= <- <-]. split; [discriminate|].
        intros e' [= <-]. right. exists o. split; [reflexivity|].
        rewrite new_effects_mk.
        split; reflexivity.
Qed.

(** [Union[int, str, List[int], List[str]]]: the call returns and the list
    and both sets are back in their pools. *)
Lemma pool_objects_released_on_return_witness :
  let w := World_empty in
  let r := make_hint_pep484604_check_expr sanify_plain
             (meta_for union_mixed [] EmptyString) w in
  (forall hints_meta', fst r = Returned hints_meta' ->
     outstanding [] (new_effects w (snd r)) = [] /\
     forall k o, In (Acquire k o) (new_effects w (snd r)) ->
                 In o (pool_of k (pools (snd r)))) /\
  (forall e, fst r = Raised e ->
     (get_hint_pep_args
        (meta_hint (hint_curr_meta (meta_for union_mixed [] EmptyString))) = [] /\
      e = AssertionError /\
      outstanding [] (new_effects w (snd r)) = []) \/
     (exists o,
        flattened_value sanify_plain (meta_for union_mixed [] EmptyString) = Raised e /\
        new_effects w (snd r) =
          [Print (hint_curr_meta (meta_for union_mixed [] EmptyString));
           Acquire PoolList o] /\
        outstanding [] (new_effects w (snd r)) = [(PoolList, o)])).
Proof.
  apply (pool_objects_released_on_return sanify_plain
           (meta_for union_mixed [] EmptyString) World_empty).
  vm_compute. reflexivity.
Defined.

(** C3 fails as stated: sanifying the second child of
    [Union[int, Unsupported]] raises, the exception leaves the getter and
    the factory, and the scratch list acquired by the getter is neither
    released nor back in its pool. *)
Lemma pool_list_leaks_when_sanify_raises :
  let r := make_hint_pep484604_check_expr sanify_sample
             (meta_for union_unsupported [] EmptyString) World_empty in
  fst r = Raised (OtherException "BeartypeDecorHintPepUnsupportedException") /\
  effects (snd r) =
    [Print (hint_curr_meta (meta_for union_unsupported [] EmptyString));
     Acquire PoolList 0] /\
  outstanding [] (effects (snd r)) = [(PoolList, 0)] /\
  ~ In 0 (pool_list (pools (snd r))).
Proof. vm_compute. repeat split. intros []. Qed.

(** *** Memoization *)

(** A second call with the very same metadata is a hit: same tuple, and
    the process state is left as it is. *)
Lemma getter_again_hits sanify_hint_child hints_meta w v w1 :
  _get_hint_pep484604_union_args_flattened sanify_hint_child hints_meta w
    = (Returned v, w1) ->
  _get_hint_pep484604_union_args_flattened sanify_hint_child hints_meta w1
    = (Returned v, w1).
Proof.
  intros E. apply getter_hit.
  destruct (memo_get (flattened w) hints_meta) as [v0|] eqn:G.
  - rewrite (getter_hit _ _ _ _ G) in E. injection E as <- <-. exact G.
  - rewrite (getter_miss _ _ _ G) in E.
    destruct (_get_hint_pep484604_union_args_flattened_func sanify_hint_child
                hints_meta w) as [[v0|e] w0]; [|discriminate].
    injection E as <- <-. cbn [flattened memo_get].
    destruct (HintsMeta_eq_dec hints_meta hints_meta); congruence.
Qed.

(** C2, at the failing input. The same union [Union[int, str, float]] is
    flattened under the same configuration for a parameter and for a
    return. The first run of the getter prints a line. The two metadata
    objects agree on the hint and on the configuration, the second call
    returns the same tuple, and yet it is computed again: the getter
    prints, acquires and releases a list anew. Nor is the tuple a function
    of the hint and configuration alone: for [Union[T, str]] it changes
    with the type variable table. *)
Theorem flattening_recomputed_for_same_hint_and_conf :
  let a := meta_for union_flat [] "parameter x" in
  let b := meta_for union_flat [] "return" in
  let first :=
    _get_hint_pep484604_union_args_flattened sanify_plain a World_empty in
  let second :=
    _get_hint_pep484604_union_args_flattened sanify_plain b (snd first) in
  let c := meta_for union_typevar [("T", HClass "int")] EmptyString in
  let d := meta_for union_typevar [("T", HClass "bytes")] EmptyString in
  (meta_hint (hint_curr_meta a) = meta_hint (hint_curr_meta b) /\
   conf a = conf b /\
   effects (snd first) =
     [Print (hint_curr_meta a); Acquire PoolList 0; Release PoolList 0] /\
   fst second = fst first /\
   new_effects (snd first) (snd second) =
     [Print (hint_curr_meta b); Acquire PoolList 0; Release PoolList 0]) /\
  (meta_hint (hint_curr_meta c) = meta_hint (hint_curr_meta d) /\
   conf c = conf d /\
   fst (_get_hint_pep484604_union_args_flattened sanify_sample c World_empty)
   <>
   fst (_get_hint_pep484604_union_args_flattened sanify_sample d World_empty)).
Proof. vm_compute. repeat split. discriminate. Qed.

(** *** Generated code *)

Lemma append_snippets_nil c : append_snippets c [] = c.
Proof. destruct c; simpl; rewrite app_nil_r; reflexivity. Qed.

(** The [enumerate] loop appends one placeholder snippet per child and
    enqueues the children in the same order. *)
Lemma emit_pep_spec pep : forall idx nonpep m,
  emit_pep idx pep nonpep m =
  {| hint_curr_meta := hint_curr_meta m; conf := conf m;
     cls_stack := cls_stack m; exception_prefix := exception_prefix m;
     indent_curr := indent_curr m;
     indent_level_child := indent_level_child m;
     pith_curr_var_name_index := pith_curr_var_name_index m;
     func_curr_code :=
       append_snippets (func_curr_code m)
         (map CODE_PEP484604_UNION_CHILD_PEP
            (seq (List.length (enqueued m)) (List.length pep)));
     enqueued :=
       enqueued m ++
       pep_children idx pep nonpep (indent_level_child m)
         (pith_curr_var_name_index m) |}.
Proof.
  induction pep as [|c pep IH]; intros idx nonpep m.
  - simpl. rewrite append_snippets_nil, app_nil_r. destruct m; reflexivity.
  - cbn [emit_pep enqueue_hint_or_sane_child]. rewrite IH.
    unfold append_snippet, set_func_curr_code.
    cbn [hint_curr_meta conf cls_stack exception_prefix indent_curr
         indent_level_child pith_curr_var_name_index func_curr_code enqueued].
    f_equal.
    + rewrite length_app. cbn [List.length]. rewrite Nat.add_1_r.
      destruct (func_curr_code m); cbn [append_snippets];
        rewrite <- app_assoc; reflexivity.
    + rewrite <- app_assoc. reflexivity.
Qed.

(** The metadata the factory leaves behind, spelled out. *)
Lemma generated_spec childs m nonpep pep :
  filter_childs childs [] [] = (nonpep, pep) ->
  generated childs m =
  {| hint_curr_meta := hint_curr_meta m; conf := conf m;
     cls_stack := cls_stack m; exception_prefix := exception_prefix m;
     indent_curr := indent_curr m;
     indent_level_child := indent_level_child m;
     pith_curr_var_name_index := pith_curr_var_name_index m;
     func_curr_code :=
       match union_snippets nonpep pep (List.length (enqueued m)) with
       | [] => CODE_PEP484604_UNION_PREFIX
       | snippets => code_munged snippets (indent_curr m)
       end;
     enqueued :=
       enqueued m ++
       pep_children 0 pep nonpep (indent_level_child m)
         (pith_curr_var_name_index m) |}.
Proof.
  intros F. unfold generated. rewrite F, emit_pep_spec.
  unfold union_snippets.
  destruct nonpep as [|t nonpep]; cbn [truthy].
  - unfold set_func_curr_code, CODE_PEP484604_UNION_PREFIX.
    cbn [hint_curr_meta conf cls_stack exception_prefix indent_curr
         indent_level_child pith_curr_var_name_index func_curr_code enqueued
         append_snippets app].
    destruct pep as [|c pep]; reflexivity.
  - unfold append_snippet, set_func_curr_code, CODE_PEP484604_UNION_PREFIX.
    cbn [hint_curr_meta conf cls_stack exception_prefix indent_curr
         indent_level_child pith_curr_var_name_index func_curr_code enqueued
         append_snippets app]. reflexivity.
Qed.

(** With a sound memo table the factory returns whenever the flattening
    does, and leaves the metadata [generated] describes. *)
Lemma fst_make sanify_hint_child hints_meta w childs :
  memo_ok sanify_hint_child w ->
  flattened_value sanify_hint_child hints_meta = Returned childs ->
  fst (make_hint_pep484604_check_expr sanify_hint_child hints_meta w) =
  Returned (generated childs hints_meta).
Proof.
  intros OK F. rewrite make_run.
  pose proof (fst_getter sanify_hint_child hints_meta w OK) as G.
  rewrite F in G.
  destruct (_get_hint_pep484604_union_args_flattened sanify_hint_child
              hints_meta w) as [[v|e] w1]; cbn [fst] in G; [|discriminate].
  injection G as ->.
  destruct (acquire_object_typed PoolSet (pools w1)) as [o1 p1].
  destruct (acquire_object_typed PoolSet p1) as [o2 p2]. reflexivity.
Qed.

(** Reading the queue at the positions the placeholders name gives back
    the enqueued children. *)
Lemma nth_error_enqueued (l : list ChildMeta) : forall q,
  map (nth_error (q ++ l)) (seq (List.length q) (List.length l)) = map Some l.
Proof.
  induction l as [|a l IH]; intros q; [reflexivity|].
  cbn [List.length seq map]. f_equal.
  - rewrite nth_error_app2 by lia. rewrite Nat.sub_diag. reflexivity.
  - specialize (IH (q ++ [a])). rewrite <- app_assoc, length_app in IH.
    cbn [List.length app] in IH. rewrite Nat.add_1_r in IH. exact IH.
Qed.

Lemma pep_children_length pep : forall idx nonpep i j,
  List.length (pep_children idx pep nonpep i j) = List.length pep.
Proof.
  induction pep as [|c pep IH]; intros; simpl; [reflexivity|].
  rewrite IH. reflexivity.
Qed.

Lemma pep_children_hints pep : forall idx nonpep i j,
  map child_hint_or_sane (pep_children idx pep nonpep i j) = pep.
Proof.
  induction pep as [|c pep IH]; intros; simpl; [reflexivity|].
  rewrite IH. reflexivity.
Qed.

(** Every child after the first, and every child when a membership test
    precedes them, is handed the name of the local variable. *)
Lemma pep_children_piths_later pep : forall idx nonpep i j,
  truthy nonpep || negb (Nat.eqb idx 0) = true ->
  map child_pith_expr (pep_children idx pep nonpep i j) =
  repeat pith_curr_var_name (List.length pep).
Proof.
  induction pep as [|c pep IH]; intros idx nonpep i j H; simpl;
    [reflexivity|].
  rewrite H, IH; [reflexivity|]. simpl. apply Bool.orb_true_r.
Qed.

(** *** The two sets of children *)

Lemma set_add_In {A} eq_dec (x y : A) s :
  In y (set_add eq_dec x s) <-> In y s \/ y = x.
Proof.
  unfold set_add. destruct (in_dec eq_dec x s) as [I|N].
  - split; [auto|]. intros [H | ->]; assumption.
  - rewrite in_app_iff. simpl. intuition congruence.
Qed.

Lemma set_add_NoDup {A} eq_dec (x : A) s :
  NoDup s -> NoDup (set_add eq_dec x s).
Proof.
  intros H. unfold set_add. destruct (in_dec eq_dec x s) as [I|N]; [exact H|].
  apply NoDup_app; [exact H | repeat constructor; intros [] |].
  intros a Ia [<- | []]. contradiction.
Qed.

Lemma set_add_truthy {A} eq_dec (x : A) s :
  truthy (set_add eq_dec x s) = true.
Proof.
  unfold set_add. destruct (in_dec eq_dec x s) as [I|N].
  - destruct s; [destruct I | reflexivity].
  - destruct s; reflexivity.
Qed.

Lemma existsb_set_add {A} eq_dec (f : A -> bool) x s :
  existsb f (set_add eq_dec x s) = existsb f s || f x.
Proof.
  unfold set_add. destruct (in_dec eq_dec x s) as [I|N].
  - destruct (f x) eqn:Fx; [|rewrite Bool.orb_false_r; reflexivity].
    rewrite Bool.orb_true_r. apply existsb_exists. eauto.
  - rewrite existsb_app. simpl. rewrite Bool.orb_false_r. reflexivity.
Qed.

(** The PEP-compliant set: without duplicates, and holding exactly the
    PEP-compliant children. *)
Lemma filter_childs_pep cs : forall n0 p0 n p,
  filter_childs cs n0 p0 = (n, p) -> NoDup p0 ->
  NoDup p /\
  forall c, In c p <->
            In c p0 \/
            (In c cs /\ is_hint_pep (get_hint_or_sane_hint c) = true).
Proof.
  induction cs as [|c cs IH]; intros n0 p0 n p F ND; simpl in F.
  - injection F as <- <-. split; [exact ND|]. intros c. simpl. tauto.
  - destruct (is_hint_pep (get_hint_or_sane_hint c)) eqn:P.
    + destruct (IH _ _ _ _ F (set_add_NoDup _ c p0 ND)) as [ND' H].
      split; [exact ND'|]. intros x. rewrite H, set_add_In. simpl.
      intuition (subst; auto).
    + destruct (IH _ _ _ _ F ND) as [ND' H].
      split; [exact ND'|]. intros x. rewrite H. simpl.
      intuition (subst; auto; congruence).
Qed.

(** The PEP-noncompliant set: without duplicates, and holding exactly
    the hints of the PEP-noncompliant children. *)
Lemma filter_childs_nonpep cs : forall n0 p0 n p,
  filter_childs cs n0 p0 = (n, p) -> NoDup n0 ->
  NoDup n /\
  forall t, In t n <->
            In t n0 \/
            (exists c, In c cs /\ get_hint_or_sane_hint c = t /\
                       is_hint_pep t = false).
Proof.
  induction cs as [|c cs IH]; intros n0 p0 n p F ND; simpl in F.
  - injection F as <- <-. split; [exact ND|]. intros t. simpl.
    split; [auto|]. intros [H | (c & [] & _)]. exact H.
  - destruct (is_hint_pep (get_hint_or_sane_hint c)) eqn:P.
    + destruct (IH _ _ _ _ F ND) as [ND' H].
      split; [exact ND'|]. intros t. rewrite H. simpl.
      split.
      * intros [I | (x & Ix & Hx & Px)]; [auto|]. right. exists x. auto.
      * intros [I | (x & [<- | Ix] & Hx & Px)]; [auto | congruence |].
        right. exists x. auto.
    + destruct (IH _ _ _ _ F (set_add_NoDup _ _ n0 ND)) as [ND' H].
      split; [exact ND'|]. intros t. rewrite H, set_add_In. simpl.
      split.
      * intros [[I | ->] | (x & Ix & Hx & Px)]; [auto | | ].
        -- right. exists c. auto.
        -- right. exists x. auto.
      * intros [I | (x & [<- | Ix] & Hx & Px)]; [auto | auto |].
        right. exists x. auto.
Qed.

(** A set, once non-empty, stays non-empty. *)
Lemma filter_childs_keeps cs : forall n0 p0 n p,
  filter_childs cs n0 p0 = (n, p) ->
  (truthy n0 = true -> truthy n = true) /\
  (truthy p0 = true -> truthy p = true).
Proof.
  induction cs as [|c cs IH]; intros n0 p0 n p F; simpl in F.
  - injection F as <- <-. auto.
  - destruct (is_hint_pep (get_hint_or_sane_hint c));
      destruct (IH _ _ _ _ F) as [Hn Hp]; split; auto; intros _.
    + apply Hp, set_add_truthy.
    + apply Hn, set_add_truthy.
Qed.

(** Both sets are empty only for an empty tuple of children. *)
Lemma filter_childs_empty cs n p :
  filter_childs cs [] [] = (n, p) ->
  (truthy n || truthy p = false <-> cs = []).
Proof.
  intros F. destruct cs as [|c cs].
  - injection F as <- <-. simpl. tauto.
  - split; [|discriminate]. simpl in F.
    destruct (is_hint_pep (get_hint_or_sane_hint c));
      destruct (filter_childs_keeps _ _ _ _ _ F) as [Hn Hp].
    + rewrite (Hp (set_add_truthy _ _ _)), Bool.orb_true_r. discriminate.
    + rewrite (Hn (set_add_truthy _ _ _)). discriminate.
Qed.

Section CodeMeaning.

Variable value : Type.
Variable isinstance : value -> string -> bool.
Variable sat_pep : string -> list hint -> TypeVarToHint -> value -> bool.

(** The metadata of a PEP-noncompliant child plays no part in its
    check. *)
Lemma satisfies_child_nonpep c v :
  is_hint_pep (get_hint_or_sane_hint c) = false ->
  satisfies_child isinstance sat_pep c v =
  satisfies isinstance sat_pep [] (get_hint_or_sane_hint c) v.
Proof.
  destruct c as [h | [h tv]]; simpl; [reflexivity|].
  destruct h; [reflexivity | discriminate].
Qed.

(** Between them the two sets accept what the children accept. *)
Lemma filter_childs_holds v cs : forall n0 p0 n p,
  filter_childs cs n0 p0 = (n, p) ->
  existsb (fun t => satisfies isinstance sat_pep [] t v) n ||
  existsb (fun c => satisfies_child isinstance sat_pep c v) p =
  (existsb (fun t => satisfies isinstance sat_pep [] t v) n0 ||
   existsb (fun c => satisfies_child isinstance sat_pep c v) p0) ||
  satisfies_any isinstance sat_pep cs v.
Proof.
  induction cs as [|c cs IH]; intros n0 p0 n p F; simpl in F.
  - injection F as <- <-. simpl. rewrite Bool.orb_false_r. reflexivity.
  - destruct (is_hint_pep (get_hint_or_sane_hint c)) eqn:P;
      rewrite (IH _ _ _ _ F), existsb_set_add; simpl.
    + rewrite !Bool.orb_assoc. reflexivity.
    + rewrite (satisfies_child_nonpep c v P).
      destruct (existsb (fun t => satisfies isinstance sat_pep [] t v) n0),
        (satisfies isinstance sat_pep [] (get_hint_or_sane_hint c) v),
        (existsb (fun c => satisfies_child isinstance sat_pep c v) p0);
        reflexivity.
Qed.

(** Placeholders that name the entries [l] of the queue hold when one
    of the children of [l] is satisfied. *)
Lemma placeholders_hold v (l : list ChildMeta) : forall queue s,
  map (nth_error queue) s = map Some l ->
  existsb (snippet_holds isinstance sat_pep queue v)
    (map CODE_PEP484604_UNION_CHILD_PEP s) =
  existsb (fun c => satisfies_child isinstance sat_pep c v)
    (map child_hint_or_sane l).
Proof.
  induction l as [|a l IH]; intros queue s N;
    destruct s as [|n s]; try discriminate; [reflexivity|].
  simpl in N. injection N as N1 N2. simpl. rewrite N1.
  f_equal. apply IH, N2.
Qed.

(** The snippets of a union, read against the queue the factory leaves,
    hold exactly when one of the two sets accepts the pith. *)
Lemma union_snippets_hold v nonpep pep (q : list ChildMeta) idx i j :
  existsb
    (snippet_holds isinstance sat_pep
       (q ++ pep_children idx pep nonpep i j) v)
    (union_snippets nonpep pep (List.length q)) =
  existsb (fun t => satisfies isinstance sat_pep [] t v) nonpep ||
  existsb (fun c => satisfies_child isinstance sat_pep c v) pep.
Proof.
  unfold union_snippets. rewrite existsb_app. f_equal.
  - destruct nonpep; simpl; [reflexivity|]. apply Bool.orb_false_r.
  - pose proof (nth_error_enqueued (pep_children idx pep nonpep i j) q) as N.
    rewrite pep_children_length in N.
    rewrite (placeholders_hold v _ _ _ N), pep_children_hints.
    reflexivity.
Qed.

End CodeMeaning.

Lemma union_snippets_nil nonpep pep n :
  union_snippets nonpep pep n = [] <-> truthy nonpep || truthy pep = false.
Proof.
  unfold union_snippets. destruct nonpep, pep; simpl; split;
    try reflexivity; discriminate.
Qed.

Lemma code_snippets_generated childs m nonpep pep :
  filter_childs childs [] [] = (nonpep, pep) ->
  code_snippets (func_curr_code (generated childs m)) =
  union_snippets nonpep pep (List.length (enqueued m)).
Proof.
  intros F. rewrite (generated_spec _ m _ _ F). cbn [func_curr_code].
  destruct (union_snippets nonpep pep (List.length (enqueued m)));
    reflexivity.
Qed.

(** The check of the generated code is the disjunction over the flattened
    children. *)
Lemma code_check_generated {value} isinstance sat_pep childs m (v : value) :
  childs <> [] ->
  code_check isinstance sat_pep (generated childs m) v =
  Some (satisfies_any isinstance sat_pep childs v).
Proof.
  intros NE. destruct (filter_childs childs [] []) as [nonpep pep] eqn:F.
  rewrite (generated_spec _ m _ _ F). unfold code_check.
  cbn [func_curr_code enqueued].
  pose proof (union_snippets_hold _ isinstance sat_pep v nonpep pep
                (enqueued m) 0 (indent_level_child m)
                (pith_curr_var_name_index m)) as H.
  rewrite (filter_childs_holds _ isinstance sat_pep v _ _ _ _ _ F) in H.
  simpl in H.
  destruct (union_snippets nonpep pep (List.length (enqueued m))) eqn:U.
  - apply union_snippets_nil in U. apply (filter_childs_empty _ _ _ F) in U.
    contradiction.
  - rewrite H. reflexivity.
Qed.

(** C5. For a union whose flattening returns and which has at least one
    PEP-noncompliant child, the factory returns with code that tests the
    whole set of PEP-noncompliant children first, in a single membership
    test, followed by one placeholder sub-expression per PEP-compliant
    child; the sub-expressions are joined by [or], so the check holds
    exactly when one of the flattened children is satisfied and fails only
    if every alternative fails. *)
Theorem union_code_shallow_first sanify_hint_child hints_meta w childs
  nonpep pep :
  memo_ok sanify_hint_child w ->
  flattened_value sanify_hint_child hints_meta = Returned childs ->
  filter_childs childs [] [] = (nonpep, pep) ->
  nonpep <> [] ->
  fst (make_hint_pep484604_check_expr sanify_hint_child hints_meta w) =
    Returned (generated childs hints_meta) /\
  (NoDup nonpep /\
   forall t, In t nonpep <->
             exists c, In c childs /\ get_hint_or_sane_hint c = t /\
                       is_hint_pep t = false) /\
  (NoDup pep /\
   forall c, In c pep <->
             In c childs /\ is_hint_pep (get_hint_or_sane_hint c) = true) /\
  func_curr_code (generated childs hints_meta) =
    code_munged
      (CODE_PEP484604_UNION_CHILD_NONPEP
         (if truthy pep then pith_curr_assign_expr else pith_curr_expr)
         nonpep ::
       map CODE_PEP484604_UNION_CHILD_PEP
         (seq (List.length (enqueued hints_meta)) (List.length pep)))
      (indent_curr hints_meta) /\
  map (snippet_child (enqueued (generated childs hints_meta)))
    (map CODE_PEP484604_UNION_CHILD_PEP
       (seq (List.length (enqueued hints_meta)) (List.length pep)))
    = map Some pep /\
  (forall (value : Type) (isinstance : value -> string -> bool)
          (sat_pep : string -> list hint -> TypeVarToHint -> value -> bool)
          (v : value),
     code_check isinstance sat_pep (generated childs hints_meta) v =
     Some (satisfies_any isinstance sat_pep childs v)).
Proof.
  intros OK FV F NE.
  split; [apply (fst_make _ _ _ _ OK FV)|].
  split.
  { destruct (filter_childs_nonpep _ _ _ _ _ F (NoDup_nil _)) as [ND H].
    split; [exact ND|]. intros t. rewrite H. simpl. tauto. }
  split.
  { destruct (filter_childs_pep _ _ _ _ _ F (NoDup_nil _)) as [ND H].
    split; [exact ND|]. intros c. rewrite H. simpl. tauto. }
  rewrite (generated_spec _ hints_meta _ _ F). cbn [func_curr_code enqueued].
  split; [|split].
  - unfold union_snippets. destruct nonpep; [contradiction|]. reflexivity.
  - pose proof (nth_error_enqueued
                  (pep_children 0 pep nonpep (indent_level_child hints_meta)
                     (pith_curr_var_name_index hints_meta))
                  (enqueued hints_meta)) as N.
    rewrite pep_children_length in N.
    rewrite map_map. cbn [snippet_child].
    rewrite <- (map_map (nth_error _) (option_map child_hint_or_sane)), N.
    rewrite map_map. cbn [option_map]. rewrite <- (map_map _ Some).
    rewrite pep_children_hints. reflexivity.
  - intros. rewrite <- (generated_spec _ hints_meta _ _ F).
    apply code_check_generated. intros ->. simpl in F. injection F as <- <-.
    contradiction.
Qed.

(** [Union[int, str, List[int], List[str]]]: one membership test on
    [(int, str)], then a placeholder for each of [List[int]] and
    [List[str]]. *)
Lemma union_code_shallow_first_witness :
  let m := meta_for union_mixed [] EmptyString in
  let childs :=
    [Bare (HClass "int"); Bare (HClass "str");
     Bare (List_of (HClass "int")); Bare (List_of (HClass "str"))] in
  let nonpep := [HClass "int"; HClass "str"] in
  let pep := [Bare (List_of (HClass "int")); Bare (List_of (HClass "str"))] in
  fst (make_hint_pep484604_check_expr sanify_plain m World_empty) =
    Returned (generated childs m) /\
  (NoDup nonpep /\
   forall t, In t nonpep <->
             exists c, In c childs /\ get_hint_or_sane_hint c = t /\
                       is_hint_pep t = false) /\
  (NoDup pep /\
   forall c, In c pep <->
             In c childs /\ is_hint_pep (get_hint_or_sane_hint c) = true) /\
  func_curr_code (generated childs m) =
    code_munged
      (CODE_PEP484604_UNION_CHILD_NONPEP
         (if truthy pep then pith_curr_assign_expr else pith_curr_expr)
         nonpep ::
       map CODE_PEP484604_UNION_CHILD_PEP
         (seq (List.length (enqueued m)) (List.length pep)))
      (indent_curr m) /\
  map (snippet_child (enqueued (generated childs m)))
    (map CODE_PEP484604_UNION_CHILD_PEP
       (seq (List.length (enqueued m)) (List.length pep)))
    = map Some pep /\
  (forall (value : Type) (isinstance : value -> string -> bool)
          (sat_pep : string -> list hint -> TypeVarToHint -> value -> bool)
          (v : value),
     code_check isinstance sat_pep (generated childs m) v =
     Some (satisfies_any isinstance sat_pep childs v)).
Proof.
  intros m childs nonpep pep.
  apply (union_code_shallow_first sanify_plain m World_empty childs
           nonpep pep).
  - intros k v H. discriminate H.
  - vm_compute. reflexivity.
  - vm_compute. reflexivity.
  - discriminate.
Defined.

(** The code generated for [Union[int, str, List[int], List[str]]]. *)
Example union_mixed_code :
  option_map func_curr_code
    (match fst (make_hint_pep484604_check_expr sanify_plain
                  (meta_for union_mixed [] EmptyString) World_empty) with
     | Returned m => Some m
     | Raised _ => None
     end) =
  Some (code_munged
          [CODE_PEP484604_UNION_CHILD_NONPEP pith_curr_assign_expr
             [HClass "int"; HClass "str"];
           CODE_PEP484604_UNION_CHILD_PEP 0;
           CODE_PEP484604_UNION_CHILD_PEP 1] "    ").
Proof. reflexivity. Qed.

Lemma snippet_piths_placeholders (l : list ChildMeta) : forall queue s,
  map (nth_error queue) s = map Some l ->
  map (snippet_pith queue) (map CODE_PEP484604_UNION_CHILD_PEP s) =
  map Some (map child_pith_expr l).
Proof.
  induction l as [|a l IH]; intros queue s N;
    destruct s as [|n s]; try discriminate; [reflexivity|].
  simpl in N. injection N as N1 N2. simpl. rewrite N1.
  f_equal. apply IH, N2.
Qed.

Lemma filter_binds_repeat n :
  List.length (filter binds_pith (repeat (Some pith_curr_var_name) n)) = 0.
Proof. induction n; simpl; auto. Qed.

Lemma map_Some_repeat {A} (x : A) n :
  map Some (repeat x n) = repeat (Some x) n.
Proof. induction n; simpl; congruence. Qed.

(** C6. In the code emitted for a union whose flattening returns, the
    sub-expressions use the pith as follows, in order: when a membership
    test is followed by placeholders for PEP-compliant children, the test
    binds the pith to the local variable and every placeholder reads that
    variable by name; when there is no membership test, the first
    placeholder binds the pith and every later one reads the variable;
    when there is a membership test alone, it evaluates the pith
    expression and binds nothing. So the pith is bound at most once, by
    the first sub-expression, and never evaluated again after it. *)
Theorem union_code_binds_pith_once sanify_hint_child hints_meta w childs
  nonpep pep :
  memo_ok sanify_hint_child w ->
  flattened_value sanify_hint_child hints_meta = Returned childs ->
  filter_childs childs [] [] = (nonpep, pep) ->
  fst (make_hint_pep484604_check_expr sanify_hint_child hints_meta w) =
    Returned (generated childs hints_meta) /\
  pith_uses (generated childs hints_meta) =
    match nonpep, pep with
    | [], [] => []
    | _ :: _, [] => [Some pith_curr_expr]
    | _ :: _, _ :: _ =>
        Some pith_curr_assign_expr ::
        repeat (Some pith_curr_var_name) (List.length pep)
    | [], _ :: rest =>
        Some pith_curr_assign_expr ::
        repeat (Some pith_curr_var_name) (List.length rest)
    end /\
  List.length (filter binds_pith (pith_uses (generated childs hints_meta)))
    <= 1.
Proof.
  intros OK FV F.
  split; [apply (fst_make _ _ _ _ OK FV)|].
  assert (P : pith_uses (generated childs hints_meta) =
              match nonpep, pep with
              | [], [] => []
              | _ :: _, [] => [Some pith_curr_expr]
              | _ :: _, _ :: _ =>
                  Some pith_curr_assign_expr ::
                  repeat (Some pith_curr_var_name) (List.length pep)
              | [], _ :: rest =>
                  Some pith_curr_assign_expr ::
                  repeat (Some pith_curr_var_name) (List.length rest)
              end).
  { unfold pith_uses. rewrite (code_snippets_generated _ hints_meta _ _ F).
    rewrite (generated_spec _ hints_meta _ _ F). cbn [enqueued].
    pose proof (nth_error_enqueued
                  (pep_children 0 pep nonpep (indent_level_child hints_meta)
                     (pith_curr_var_name_index hints_meta))
                  (enqueued hints_meta)) as N.
    rewrite pep_children_length in N.
    unfold union_snippets. rewrite map_app.
    rewrite (snippet_piths_placeholders _ _ _ N).
    destruct nonpep as [|t nonpep].
    - destruct pep as [|c pep]; [reflexivity|].
      cbn [truthy app map pep_children child_pith_expr orb Nat.eqb negb].
      rewrite pep_children_piths_later by reflexivity.
      rewrite map_Some_repeat. reflexivity.
    - rewrite pep_children_piths_later by reflexivity.
      rewrite map_Some_repeat.
      destruct pep as [|c pep]; reflexivity. }
  split; [exact P|]. rewrite P.
  destruct nonpep, pep; cbn [filter binds_pith List.length];
    rewrite ?filter_binds_repeat; auto.
Qed.

(** [Union[List[int], List[str]]]: the first placeholder binds the pith,
    the second reads the variable. *)
Lemma union_code_binds_pith_once_witness :
  let m := meta_for union_pep_only [] EmptyString in
  let childs :=
    [Bare (List_of (HClass "int")); Bare (List_of (HClass "str"))] in
  fst (make_hint_pep484604_check_expr sanify_plain m World_empty) =
    Returned (generated childs m) /\
  pith_uses (generated childs m) =
    [Some pith_curr_assign_expr; Some pith_curr_var_name] /\
  List.length (filter binds_pith (pith_uses (generated childs m))) <= 1.
Proof.
  intros m childs.
  apply (union_code_binds_pith_once sanify_plain m World_empty childs
           [] childs).
  - intros k v H. discriminate H.
  - vm_compute. reflexivity.
  - vm_compute. reflexivity.
Defined.

(** A union with a shallow bucket only binds nothing. *)
Example union_flat_binds_nothing :
  option_map pith_uses
    (match fst (make_hint_pep484604_check_expr sanify_plain
                  (meta_for union_flat [] EmptyString) World_empty) with
     | Returned m => Some m
     | Raised _ => None
     end) = Some [Some pith_curr_expr].
Proof. reflexivity. Qed.

(** C7, as amended. For a union whose flattening returns, the factory
    returns, and it leaves the code at its initial prefix value, skipping
    the munging, exactly when the flattened tuple is empty. Ignorable
    children are not eliminated here: a union with children, ignorable or
    not, gets the munged code of at least one snippet, and when every
    flattened child accepts every value the check emitted accepts every
    value. *)
Theorem union_code_prefix_iff_no_child sanify_hint_child hints_meta w childs :
  memo_ok sanify_hint_child w ->
  flattened_value sanify_hint_child hints_meta = Returned childs ->
  fst (make_hint_pep484604_check_expr sanify_hint_child hints_meta w) =
    Returned (generated childs hints_meta) /\
  (func_curr_code (generated childs hints_meta) = CODE_PEP484604_UNION_PREFIX
   <-> childs = []) /\
  (childs <> [] ->
   exists snippets,
     snippets <> [] /\
     func_curr_code (generated childs hints_meta) =
       code_munged snippets (indent_curr hints_meta)) /\
  (forall (value : Type) (isinstance : value -> string -> bool)
          (sat_pep : string -> list hint -> TypeVarToHint -> value -> bool),
     childs <> [] ->
     (forall c v, In c childs ->
                  satisfies_child isinstance sat_pep c v = true) ->
     forall v, code_check isinstance sat_pep (generated childs hints_meta) v
               = Some true).
Proof.
  intros OK FV.
  split; [apply (fst_make _ _ _ _ OK FV)|].
  destruct (filter_childs childs [] []) as [nonpep pep] eqn:F.
  pose proof (filter_childs_empty _ _ _ F) as E.
  pose proof (union_snippets_nil nonpep pep
                (List.length (enqueued hints_meta))) as U.
  split; [|split].
  - rewrite (generated_spec _ hints_meta _ _ F). cbn [func_curr_code].
    destruct (union_snippets nonpep pep (List.length (enqueued hints_meta)))
      as [|s l].
    + split; [intros _; apply E, U; reflexivity | reflexivity].
    + split; [discriminate|]. intros H. apply E, U in H. discriminate.
  - intros NE. rewrite (generated_spec _ hints_meta _ _ F).
    cbn [func_curr_code].
    destruct (union_snippets nonpep pep (List.length (enqueued hints_meta)))
      as [|s l].
    + destruct NE. apply E, U. reflexivity.
    + exists (s :: l). split; [discriminate | reflexivity].
  - intros value isinstance sat_pep NE A v.
    rewrite (code_check_generated isinstance sat_pep childs hints_meta v NE).
    f_equal. destruct childs as [|c cs]; [contradiction|].
    unfold satisfies_any. simpl. rewrite (A c v); [reflexivity|].
    left. reflexivity.
Qed.

(** [Union[object, Any]]: both children accept every value and the
    factory still writes the test and the placeholder. *)
Lemma union_code_prefix_iff_no_child_witness :
  let m := meta_for union_ignorable [] EmptyString in
  let childs := [Bare (HClass "object"); Bare (HPep (HintSignOther "Any") [])] in
  fst (make_hint_pep484604_check_expr sanify_plain m World_empty) =
    Returned (generated childs m) /\
  (func_curr_code (generated childs m) = CODE_PEP484604_UNION_PREFIX
   <-> childs = []) /\
  (childs <> [] ->
   exists snippets,
     snippets <> [] /\
     func_curr_code (generated childs m) =
       code_munged snippets (indent_curr m)) /\
  (forall (value : Type) (isinstance : value -> string -> bool)
          (sat_pep : string -> list hint -> TypeVarToHint -> value -> bool),
     childs <> [] ->
     (forall c v, In c childs ->
                  satisfies_child isinstance sat_pep c v = true) ->
     forall v, code_check isinstance sat_pep (generated childs m) v
               = Some true).
Proof.
  intros m childs.
  apply (union_code_prefix_iff_no_child sanify_plain m World_empty childs).
  - intros k v H. discriminate H.
  - vm_compute. reflexivity.
Defined.

(** C7 fails as stated: every child of [Union[object, Any]] accepts every
    value, and the factory does not leave the code at its prefix: it
    writes the membership test on [(object,)] and the placeholder of
    [Any], munged. *)
Lemma ignorable_union_gets_code :
  (forall h (v : nat), In h (get_hint_pep_args union_ignorable) ->
     satisfies isinstance_sample sat_pep_sample [] h v = true) /\
  exists m,
    fst (make_hint_pep484604_check_expr sanify_plain
           (meta_for union_ignorable [] EmptyString) World_empty) = Returned m /\
    func_curr_code m =
      code_munged
        [CODE_PEP484604_UNION_CHILD_NONPEP pith_curr_assign_expr
           [HClass "object"];
         CODE_PEP484604_UNION_CHILD_PEP 0] "    " /\
    func_curr_code m <> CODE_PEP484604_UNION_PREFIX.
Proof.
  split.
  - intros h v [<- | [<- | []]]; reflexivity.
  - eexists. split; [vm_compute; reflexivity|]. split; [reflexivity|].
    discriminate.
Qed.

(** The factory keeps the memo table sound. *)
Lemma memo_ok_make sanify_hint_child hints_meta w :
  memo_ok sanify_hint_child w ->
  memo_ok sanify_hint_child
    (snd (make_hint_pep484604_check_expr sanify_hint_child hints_meta w)).
Proof.
  intros OK. rewrite make_run.
  pose proof (memo_ok_getter sanify_hint_child hints_meta w OK) as G.
  destruct (_get_hint_pep484604_union_args_flattened sanify_hint_child
              hints_meta w) as [[v|e] w1]; cbn [snd] in *; [|exact G].
  destruct (acquire_object_typed PoolSet (pools w1)) as [o1 p1].
  destruct (acquire_object_typed PoolSet p1) as [o2 p2]. exact G.
Qed.

End UnionFacts.

(* ===================================================================== *)
(** * Facts: [IsAttr] *)
(* ===================================================================== *)

Module ValeFacts.
Import Vale ValeInv.

(** An object without the attribute gives the sentinel. *)
Lemma getattr_missing p name :
  hasattr p name = false -> getattr p name SENTINEL = SENTINEL.
Proof.
  unfold hasattr, getattr. destruct p; try reflexivity.
  destruct (Conf.assoc_get attrs name); [discriminate | reflexivity].
Qed.

Lemma is_SENTINEL_iff p : is_SENTINEL p = true <-> p = SENTINEL.
Proof. destruct p; simpl; split; congruence. Qed.

(** The validator [is_valid] closes over: true exactly when the attribute
    is there and satisfies the attribute validator. *)
Lemma IsAttr_is_valid_iff attr_name validator p :
  IsAttr_is_valid attr_name validator p = true <->
  getattr p attr_name SENTINEL <> SENTINEL /\
  is_valid validator (getattr p attr_name SENTINEL) = true.
Proof.
  unfold IsAttr_is_valid. rewrite Bool.andb_true_iff, Bool.negb_true_iff.
  rewrite <- is_SENTINEL_iff.
  destruct (is_SENTINEL (getattr p attr_name SENTINEL)); intuition congruence.
Qed.

(** Whatever is not a 2-tuple led by a non-empty unqualified identifier
    string is rejected with the subscription exception. *)
Lemma IsAttr_rejects_unnamed args :
  is_named_pair args = false ->
  IsAttr___class_getitem__ args = Raised BeartypeValeSubscriptionException.
Proof.
  destruct args as [p | v | items]; try reflexivity.
  destruct items as [|a [|b [|c items]]]; try reflexivity.
  destruct a as [[| | |name|] | |]; try reflexivity.
  unfold is_named_pair, IsAttr___class_getitem__.
  cbn [List.length Nat.eqb negb].
  destruct (String.eqb name EmptyString); [reflexivity|].
  destruct (string_mem "."%char name); [reflexivity|].
  destruct (isidentifier name); [discriminate | reflexivity].
Qed.

(** C10, as amended. Subscripting [IsAttr] by a 2-tuple of a non-empty
    unqualified identifier string and a validator returns a validator
    whose [is_valid] is total on missing attributes: for every object it
    is true if and only if [getattr] does not yield the sentinel for that
    name and the attribute validator accepts the attribute's value, and an
    object lacking the attribute yields false rather than an exception.
    Subscripting [IsAttr] by anything that is not a 2-tuple whose first
    item is a non-empty unqualified identifier string raises
    [BeartypeValeSubscriptionException]; the second item is not checked
    to be a validator. *)
Theorem IsAttr_is_valid_total attr_name validator :
  is_named_pair (ATuple [AObject (PStr attr_name); AValidator validator])
    = true ->
  (exists subscripted,
     IsAttr___class_getitem__
       (ATuple [AObject (PStr attr_name); AValidator validator])
       = Returned subscripted /\
     forall p,
       (is_valid subscripted p = true <->
        getattr p attr_name SENTINEL <> SENTINEL /\
        is_valid validator (getattr p attr_name SENTINEL) = true) /\
       (hasattr p attr_name = false -> is_valid subscripted p = false)) /\
  (forall args, is_named_pair args = false ->
     IsAttr___class_getitem__ args = Raised BeartypeValeSubscriptionException).
Proof.
  intros N. split; [|apply IsAttr_rejects_unnamed].
  unfold is_named_pair in N. rewrite !Bool.andb_true_iff in N.
  destruct N as [[N1 N2] N3]. apply Bool.negb_true_iff in N1, N2.
  eexists. split.
  - unfold IsAttr___class_getitem__. cbn [List.length Nat.eqb negb].
    rewrite N1, N2, N3. cbn [negb]. reflexivity.
  - intros p. cbn [is_valid]. split; [apply IsAttr_is_valid_iff|].
    intros H. unfold IsAttr_is_valid. rewrite (getattr_missing _ _ H).
    reflexivity.
Qed.

(** [IsAttr['ndim', IsEqual[2]]]. *)
Lemma IsAttr_is_valid_total_witness :
  (exists subscripted,
     IsAttr___class_getitem__
       (ATuple [AObject (PStr "ndim"); AValidator IsEqual_2])
       = Returned subscripted /\
     forall p,
       (is_valid subscripted p = true <->
        getattr p "ndim" SENTINEL <> SENTINEL /\
        is_valid IsEqual_2 (getattr p "ndim" SENTINEL) = true) /\
       (hasattr p "ndim" = false -> is_valid subscripted p = false)) /\
  (forall args, is_named_pair args = false ->
     IsAttr___class_getitem__ args = Raised BeartypeValeSubscriptionException).
Proof.
  apply (IsAttr_is_valid_total "ndim" IsEqual_2). vm_compute. reflexivity.
Defined.

(** C10 fails as stated: [IsAttr['x', 5]] is subscripted by a 2-tuple
    whose second item is no validator, and it raises [AttributeError],
    not [BeartypeValeSubscriptionException]. *)
Lemma IsAttr_nonvalidator_raises_AttributeError :
  is_name_and_validator (ATuple [AObject (PStr "x"); AObject (PInt 5)])
    = false /\
  IsAttr___class_getitem__ (ATuple [AObject (PStr "x"); AObject (PInt 5)])
    = Raised AttributeError /\
  IsAttr___class_getitem__ (ATuple [AObject (PStr "x"); AObject (PInt 5)])
    <> Raised BeartypeValeSubscriptionException.
Proof. repeat split. discriminate. Qed.

(** The validator on sample objects: an attribute that satisfies, one that
    does not, none, and one whose value is the sentinel itself. *)
Example IsAttr_ndim_samples :
  map (IsAttr_is_valid "ndim" IsEqual_2)
    [array_2d; PObject [("ndim", PInt 1)]; PObject [("size", PInt 2)];
     PInt 2; PObject [("ndim", SENTINEL)]]
  = [true; false; false; false; false].
Proof. reflexivity. Qed.

(** Subscriptions the validation rejects. *)
Example IsAttr_rejected_samples :
  map IsAttr___class_getitem__
    [AObject (PStr "ndim");
     ATuple [];
     ATuple [AObject (PStr "a"); AValidator IsEqual_2; AValidator IsEqual_2];
     ATuple [AObject (PInt 1); AValidator IsEqual_2];
     ATuple [AObject (PStr EmptyString); AValidator IsEqual_2];
     ATuple [AObject (PStr "dtype.type"); AValidator IsEqual_2];
     ATuple [AObject (PStr "2d"); AValidator IsEqual_2]]
  = repeat (Raised BeartypeValeSubscriptionException) 7.
Proof. reflexivity. Qed.

End ValeFacts.

(* ===================================================================== *)
(** * More facts: the configuration cache *)
(* ===================================================================== *)

Module ConfMoreFacts.
Import Conf ConfInv ConfMore ConfFacts.

Lemma validate_None a : validate a = None <-> well_typed a = true.
Proof.
  unfold validate, well_typed.
  destruct (isinstance_bool (arg_claw_is_pep526 a)),
    (isinstance_NoneTypeOr_bool (arg_is_color a)),
    (isinstance_bool (arg_is_debug a)),
    (isinstance_bool (arg_is_pep484_tower a)),
    (is_none_or_warning_cls (arg_warning_cls_on_decorator_exception a)),
    (isinstance_BeartypeStrategy (arg_strategy a));
    simpl; split; congruence.
Qed.


(** A call whose parameters are cached. *)
Lemma new_hit a s w r :
  dict_get (beartype_conf_args_to_conf w) a = Some r ->
  BeartypeConf___new__ a s w =
  (Returned r,
   {| beartype_conf_args_to_conf := beartype_conf_args_to_conf w;
      heap := heap w;
      trace := trace w ++ [LockEnter; LockExit] |}).
Proof.
  intros G. unfold BeartypeConf___new__, BeartypeConf___new___locked.
  cbn [log beartype_conf_args_to_conf heap trace]. rewrite G.
  unfold log. cbn [beartype_conf_args_to_conf heap trace].
  rewrite <- app_assoc. reflexivity.
Qed.

(** A call whose parameters are not cached. *)
Lemma new_miss a s w :
  dict_get (beartype_conf_args_to_conf w) a = None ->
  BeartypeConf___new__ a s w =
  match validate a with
  | Some e =>
      (Raised e,
       {| beartype_conf_args_to_conf := beartype_conf_args_to_conf w;
          heap := heap w;
          trace := trace w ++ [LockEnter; LockExit] |})
  | None =>
    match color_after_shell a s with
    | None =>
        (Raised BeartypeConfShellVarException,
         {| beartype_conf_args_to_conf := beartype_conf_args_to_conf w;
            heap := heap w;
            trace := trace w ++ [LockEnter; Allocate; LockExit] |})
    | Some c =>
        (Returned (List.length (heap w)),
         {| beartype_conf_args_to_conf :=
              (a, List.length (heap w)) :: beartype_conf_args_to_conf w;
            heap := heap w ++ [initialized a c];
            trace := trace w ++ [LockEnter; Allocate; LockExit] |})
    end
  end.
Proof.
  intros G. unfold BeartypeConf___new__, BeartypeConf___new___locked.
  cbn [log beartype_conf_args_to_conf heap trace]. rewrite G.
  destruct (validate a) as [e|].
  - unfold log. cbn [beartype_conf_args_to_conf heap trace].
    rewrite <- app_assoc. reflexivity.
  - unfold color_after_shell. destruct s as [value|]; cbv beta iota zeta.
    + destruct (assoc_get SHELL_VAR_CONF_IS_COLOR_VALUE_TO_OBJ value);
        unfold log; cbn [beartype_conf_args_to_conf heap trace];
        rewrite <- !app_assoc; reflexivity.
    + unfold log. cbn [beartype_conf_args_to_conf heap trace].
      rewrite <- !app_assoc. reflexivity.
Qed.

Lemma dict_get_entry d k r :
  dict_get d k = Some r ->
  exists k', In (k', r) d /\ conf_args_eq k' k = true.
Proof.
  induction d as [|[k' r'] d IH]; simpl; [discriminate|].
  destruct (conf_args_eq k' k) eqn:E.
  - intros [= ->]. eauto.
  - intros H. destruct (IH H) as (k'' & I & Q). eauto.
Qed.

Lemma color_after_shell_tristate a s c :
  validate a = None -> color_after_shell a s = Some c ->
  isinstance_NoneTypeOr_bool c = true.
Proof.
  intros V H. destruct s as [value|]; simpl in H.
  - repeat match type of H with
           | (if ?b then _ else _) = _ => destruct b
           end; inversion H; reflexivity.
  - injection H as <-. apply validate_None in V. unfold well_typed in V.
    rewrite !Bool.andb_true_iff in V. tauto.
Qed.

Lemma keys_match_empty : keys_match World_empty.
Proof. intros k r []. Qed.

Lemma all_initialized_empty : all_initialized World_empty.
Proof. intros [|r] o H; discriminate. Qed.

Lemma keys_match_new a s w :
  keys_match w -> keys_match (snd (BeartypeConf___new__ a s w)).
Proof.
  intros K.
  destruct (dict_get (beartype_conf_args_to_conf w) a) as [r|] eqn:G.
  - rewrite (new_hit a s w r G). exact K.
  - rewrite (new_miss a s w G).
    destruct (validate a); [exact K|].
    destruct (color_after_shell a s) as [c|]; [|exact K].
    intros k r [[= <- <-] | I]; cbn [snd heap].
    + exists (initialized a c).
      rewrite nth_error_app2 by lia. rewrite Nat.sub_diag. auto.
    + destruct (K _ _ I) as (o & N & E). exists o. split; [|exact E].
      rewrite nth_error_app1; [exact N|]. apply nth_error_Some. congruence.
Qed.

Lemma all_initialized_new a s w :
  all_initialized w -> all_initialized (snd (BeartypeConf___new__ a s w)).
Proof.
  intros A.
  destruct (dict_get (beartype_conf_args_to_conf w) a) as [r|] eqn:G.
  - rewrite (new_hit a s w r G). exact A.
  - rewrite (new_miss a s w G).
    destruct (validate a) eqn:V; [exact A|].
    destruct (color_after_shell a s) as [c|] eqn:C; [|exact A].
    intros r o N. cbn [snd heap] in N.
    destruct (Nat.lt_ge_cases r (List.length (heap w))) as [L | L].
    + rewrite nth_error_app1 in N by exact L. apply (A _ _ N).
    + rewrite nth_error_app2 in N by exact L.
      destruct (r - List.length (heap w)) as [|n]; simpl in N.
      * injection N as <-. exists a, c. repeat split; auto.
        apply (color_after_shell_tristate a s c V C).
      * destruct n; discriminate.
Qed.

Lemma keys_match_run cs : forall w, keys_match w -> keys_match (run cs w).
Proof.
  induction cs as [|[a s] cs IH]; intros w H; simpl; [exact H|].
  apply IH, keys_match_new, H.
Qed.

Lemma all_initialized_run cs :
  forall w, all_initialized w -> all_initialized (run cs w).
Proof.
  induction cs as [|[a s] cs IH]; intros w H; simpl; [exact H|].
  apply IH, all_initialized_new, H.
Qed.

(** The configuration a call returns was built from parameters equal to
    those of the call. *)
Lemma returned_key a s w r w' :
  keys_match w ->
  BeartypeConf___new__ a s w = (Returned r, w') ->
  exists o, nth_error (heap w') r = Some o /\
            conf_args_eq (_conf_args o) a = true.
Proof.
  intros K E.
  destruct (dict_get (beartype_conf_args_to_conf w) a) as [x|] eqn:G.
  - rewrite (new_hit a s w x G) in E. injection E as <- <-.
    destruct (dict_get_entry _ _ _ G) as (k & I & Q).
    destruct (K _ _ I) as (o & N & <-). exists o. auto.
  - rewrite (new_miss a s w G) in E.
    destruct (validate a); [discriminate|].
    destruct (color_after_shell a s) as [c|]; [|discriminate].
    injection E as <- <-. exists (initialized a c). cbn [heap].
    rewrite nth_error_app2 by lia. rewrite Nat.sub_diag.
    split; [reflexivity | apply conf_args_eq_refl].
Qed.

(** X1. Once a call has returned a configuration, every later call whose
    parameters equal those of that call under Python's [==] (so also
    [is_debug=1] for [is_debug=True]) returns the same object, whatever
    calls came in between and whatever the shell variable holds by then:
    the parameters are not validated again, the shell variable is not
    read, nothing is allocated and the cache is left as it is. *)
Theorem BeartypeConf_new_cached_forever cs0 a1 s1 r w1 a2 cs s2 :
  BeartypeConf___new__ a1 s1 (run cs0 World_empty) = (Returned r, w1) ->
  conf_args_eq a1 a2 = true ->
  BeartypeConf___new__ a2 s2 (run cs w1) =
  (Returned r,
   {| beartype_conf_args_to_conf := beartype_conf_args_to_conf (run cs w1);
      heap := heap (run cs w1);
      trace := trace (run cs w1) ++ [LockEnter; LockExit] |}).
Proof.
  intros E Q.
  assert (W0 : wf (run cs0 World_empty)) by apply wf_run, wf_empty.
  assert (K0 : keys_match (run cs0 World_empty))
    by apply keys_match_run, keys_match_empty.
  assert (W1 : wf w1).
  { pose proof (wf_new a1 s1 _ W0) as H. rewrite E in H. exact H. }
  destruct (returned_key _ _ _ _ _ K0 E) as (o & N & Qo).
  pose proof (wf_run cs w1 W1) as [_ AC].
  pose proof (AC _ _ (heap_run cs _ _ _ N)) as G.
  rewrite (dict_get_eq_key _ _ _ (conf_args_eq_trans _ _ _ Qo Q)) in G.
  apply new_hit, G.
Qed.

(** [BeartypeConf(is_debug=True)] is created while the shell variable is
    unset; after [BeartypeConf()], a call [BeartypeConf(is_debug=1)] made
    while the shell variable holds an unrecognized string returns it. *)
Lemma BeartypeConf_new_cached_forever_witness :
  BeartypeConf___new__ (args_debug (VInt 1)) (Some "yes")
    (run [(default_args, None)]
       (snd (BeartypeConf___new__ (args_debug (VBool true)) None
               World_empty))) =
  (Returned 0,
   {| beartype_conf_args_to_conf :=
        beartype_conf_args_to_conf
          (run [(default_args, None)]
             (snd (BeartypeConf___new__ (args_debug (VBool true)) None
                     World_empty)));
      heap :=
        heap (run [(default_args, None)]
                (snd (BeartypeConf___new__ (args_debug (VBool true)) None
                        World_empty)));
      trace :=
        trace (run [(default_args, None)]
                 (snd (BeartypeConf___new__ (args_debug (VBool true)) None
                         World_empty))) ++ [LockEnter; LockExit] |}).
Proof.
  apply (BeartypeConf_new_cached_forever
           [] (args_debug (VBool true)) None 0
           (snd (BeartypeConf___new__ (args_debug (VBool true)) None
                   World_empty))
           (args_debug (VInt 1)) [(default_args, None)] (Some "yes"));
    vm_compute; reflexivity.
Defined.



Lemma initialized_slots_typed a c :
  validate a = None -> isinstance_NoneTypeOr_bool c = true ->
  slots_typed (initialized a c) = true.
Proof.
  intros V C. apply validate_None in V. unfold well_typed in V.
  rewrite !Bool.andb_true_iff in V.
  destruct V as [[[[[V1 V2] V3] V4] V5] V6].
  unfold slots_typed, initialized.
  cbn [_claw_is_pep526 _is_color _is_debug _is_pep484_tower _strategy
       _warning_cls_on_decorator_exception].
  rewrite V1, C, V3, V4, V6. cbn [andb].
  destruct (py_is_class (arg_warning_cls_on_decorator_exception a)
              _BeartypeConfReduceDecoratorExceptionToWarningDefault) eqn:D.
  - reflexivity.
  - rewrite V5, D. reflexivity.
Qed.

(** X3. Whatever calls were made, every configuration that exists has
    well-typed slots: booleans for [claw_is_pep526], [is_debug] and
    [is_pep484_tower], a tri-state boolean for [is_color] (also when it
    came from the shell variable), a strategy member, and for the warning
    category [None] or a [Warning] subclass that is never the private
    default category. Its keyword dictionary holds exactly the values of
    its six properties, and when the warning category was not passed the
    category is [None]. *)
Theorem BeartypeConf_slots_well_typed cs r o :
  nth_error (heap (run cs World_empty)) r = Some o ->
  slots_typed o = true /\
  kwargs o = properties o /\
  (_is_warning_cls_on_decorator_exception_set o = false ->
   _warning_cls_on_decorator_exception o = VNone).
Proof.
  intros N.
  destruct (all_initialized_run cs _ all_initialized_empty _ _ N)
    as (a & c & -> & V & C).
  split; [apply initialized_slots_typed; assumption|].
  split; [reflexivity|].
  unfold initialized.
  cbn [_is_warning_cls_on_decorator_exception_set
       _warning_cls_on_decorator_exception].
  destruct (py_is_class (arg_warning_cls_on_decorator_exception a)
              _BeartypeConfReduceDecoratorExceptionToWarningDefault);
    [reflexivity | discriminate].
Qed.

(** The default configuration created while the shell variable holds
    "True". *)
Lemma BeartypeConf_slots_well_typed_witness :
  slots_typed (initialized default_args (VBool true)) = true /\
  kwargs (initialized default_args (VBool true)) =
    properties (initialized default_args (VBool true)) /\
  (_is_warning_cls_on_decorator_exception_set
     (initialized default_args (VBool true)) = false ->
   _warning_cls_on_decorator_exception
     (initialized default_args (VBool true)) = VNone).
Proof.
  apply (BeartypeConf_slots_well_typed [(default_args, Some "True")] 0
           (initialized default_args (VBool true))).
  reflexivity.
Defined.

(** X4. When a configuration is created while the shell variable is set
    to a recognized string, its [is_color] slot and keyword hold the
    object that string stands for, whatever [is_color] was passed, while
    [_conf_args], the key it is cached under, keeps the parameter as
    passed. *)
Theorem BeartypeConf_new_shell_overrides_color a value w r w' :
  dict_get (beartype_conf_args_to_conf w) a = None ->
  BeartypeConf___new__ a (Some value) w = (Returned r, w') ->
  exists o c,
    nth_error (heap w') r = Some o /\
    assoc_get SHELL_VAR_CONF_IS_COLOR_VALUE_TO_OBJ value = Some c /\
    _is_color o = c /\
    assoc_get (kwargs o) "is_color" = Some c /\
    _conf_args o = a.
Proof.
  intros G E. rewrite (new_miss a (Some value) w G) in E.
  destruct (validate a); [discriminate|].
  unfold color_after_shell in E.
  destruct (assoc_get SHELL_VAR_CONF_IS_COLOR_VALUE_TO_OBJ value) as [c|];
    [|discriminate].
  injection E as <- <-. exists (initialized a c), c. cbn [heap].
  rewrite nth_error_app2 by lia. rewrite Nat.sub_diag.
  repeat split; reflexivity.
Qed.

(** [BeartypeConf(is_color=False)] created while the shell variable holds
    "True". *)
Lemma BeartypeConf_new_shell_overrides_color_witness :
  exists o c,
    nth_error
      (heap (snd (BeartypeConf___new__ (args_color (VBool false))
                    (Some "True") World_empty))) 0 = Some o /\
    assoc_get SHELL_VAR_CONF_IS_COLOR_VALUE_TO_OBJ "True" = Some c /\
    _is_color o = c /\
    assoc_get (kwargs o) "is_color" = Some c /\
    _conf_args o = args_color (VBool false).
Proof.
  apply (BeartypeConf_new_shell_overrides_color
           (args_color (VBool false)) "True" World_empty 0
           (snd (BeartypeConf___new__ (args_color (VBool false))
                   (Some "True") World_empty)));
    reflexivity.
Defined.

(** The parameters read back from the keyword dictionary of a
    configuration equal the parameters it was created from exactly when
    [is_color] was not changed by the shell variable and the warning
    category was passed. *)
Lemma kwargs_key a c :
  conf_args_eq (args_of_kwargs (kwargs (initialized a c))) a =
  py_eq c (arg_is_color a) &&
  _is_warning_cls_on_decorator_exception_set (initialized a c).
Proof.
  unfold conf_args_eq, args_of_kwargs, kwargs, initialized, keyword.
  cbn [_conf_kwargs _is_warning_cls_on_decorator_exception_set
       arg_claw_is_pep526 arg_is_color arg_is_debug arg_is_pep484_tower
       arg_strategy arg_warning_cls_on_decorator_exception].
  cbn [assoc_get String.eqb Ascii.eqb Bool.eqb].
  rewrite !py_eq_refl. cbn [andb]. rewrite !Bool.andb_true_r.
  destruct (py_is_class (arg_warning_cls_on_decorator_exception a)
              _BeartypeConfReduceDecoratorExceptionToWarningDefault) eqn:D;
    cbn [negb].
  - destruct (arg_warning_cls_on_decorator_exception a);
      try discriminate D. reflexivity.
  - rewrite py_eq_refl. reflexivity.
Qed.

(** X5. Rebuilding a configuration from its [kwargs] gives back the same
    object exactly when the warning category was passed explicitly and
    [is_color] is what was passed. Take a configuration returned by a
    call, and a later call with its keyword dictionary as keywords that
    returns: the object returned is the configuration itself if and only
    if its [_is_warning_cls_on_decorator_exception_set] flag is set and
    its [is_color] slot equals the [is_color] parameter it was created
    with. In particular a configuration created with the default warning
    category, such as [BeartypeConf()], is never what its own [kwargs]
    give back. *)
Theorem BeartypeConf_kwargs_round_trip cs0 a s r w1 o cs s2 r2 w3 :
  BeartypeConf___new__ a s (run cs0 World_empty) = (Returned r, w1) ->
  nth_error (heap w1) r = Some o ->
  BeartypeConf___new__ (args_of_kwargs (kwargs o)) s2 (run cs w1)
    = (Returned r2, w3) ->
  (r2 = r <->
   _is_warning_cls_on_decorator_exception_set o = true /\
   py_eq (_is_color o) (arg_is_color (_conf_args o)) = true) /\
  (_is_warning_cls_on_decorator_exception_set o = false -> r2 <> r).
Proof.
  intros E N E2.
  assert (W0 : wf (run cs0 World_empty)) by apply wf_run, wf_empty.
  assert (W1 : wf w1).
  { pose proof (wf_new a s _ W0) as H. rewrite E in H. exact H. }
  assert (A1 : all_initialized w1).
  { pose proof (all_initialized_new a s _
                  (all_initialized_run cs0 _ all_initialized_empty)) as H.
    rewrite E in H. exact H. }
  assert (K1 : keys_match w1).
  { pose proof (keys_match_new a s _
                  (keys_match_run cs0 _ keys_match_empty)) as H.
    rewrite E in H. exact H. }
  pose proof (wf_run cs w1 W1) as [_ AC].
  pose proof (keys_match_run cs w1 K1) as K2.
  pose proof (heap_run cs _ _ _ N) as N2.
  assert (N3 : nth_error (heap w3) r = Some o).
  { pose proof (heap_new (args_of_kwargs (kwargs o)) s2 _ _ _ N2) as H.
    rewrite E2 in H. exact H. }
  destruct (A1 _ _ N) as (a0 & c & Ho & V & C).
  assert (Key : conf_args_eq (args_of_kwargs (kwargs o)) (_conf_args o) =
                py_eq (_is_color o) (arg_is_color (_conf_args o)) &&
                _is_warning_cls_on_decorator_exception_set o).
  { rewrite Ho. apply kwargs_key. }
  assert (Iff : r2 = r <->
                conf_args_eq (args_of_kwargs (kwargs o)) (_conf_args o)
                = true).
  { split.
    - intros ->.
      destruct (returned_key _ _ _ _ _ K2 E2) as (o2 & No2 & Q).
      assert (o2 = o) as -> by congruence.
      rewrite conf_args_eq_sym. exact Q.
    - intros Q. pose proof (AC _ _ N2) as G.
      rewrite conf_args_eq_sym in Q.
      rewrite (dict_get_eq_key _ _ _ Q) in G.
      rewrite (new_hit _ s2 _ _ G) in E2. congruence. }
  split.
  - rewrite Iff, Key, Bool.andb_true_iff. tauto.
  - intros F Eq. apply Iff in Eq. rewrite Key, F, Bool.andb_false_r in Eq.
    discriminate.
Qed.

(** [BeartypeConf()], then a call with its [kwargs]: a second object. *)
Lemma BeartypeConf_kwargs_round_trip_witness :
  (1 = 0 <->
   _is_warning_cls_on_decorator_exception_set
     (initialized default_args VNone) = true /\
   py_eq (_is_color (initialized default_args VNone))
     (arg_is_color (_conf_args (initialized default_args VNone))) = true) /\
  (_is_warning_cls_on_decorator_exception_set
     (initialized default_args VNone) = false -> 1 <> 0).
Proof.
  apply (BeartypeConf_kwargs_round_trip
           [] default_args None 0
           (snd (BeartypeConf___new__ default_args None World_empty))
           (initialized default_args VNone) [] None 1
           (snd (BeartypeConf___new__
                   (args_of_kwargs (kwargs (initialized default_args VNone)))
                   None
                   (snd (BeartypeConf___new__ default_args None
                           World_empty)))));
    vm_compute; reflexivity.
Defined.










End ConfMoreFacts.

(* ===================================================================== *)
(** * More facts: the union flattening getter and code factory *)
(* ===================================================================== *)

Module UnionMoreFacts.
Import Hints Union UnionInv UnionFacts.

Lemma sanify_childs_length sanify_hint_child hints_meta hint_childs :
  forall sane,
  sanify_childs sanify_hint_child hints_meta hint_childs = Returned sane ->
  List.length sane = List.length hint_childs.
Proof.
  induction hint_childs as [|h hs IH]; intros sane; simpl.
  - intros [= <-]. reflexivity.
  - destruct (sanify_hint_child h (conf hints_meta) (cls_stack hints_meta)
                (typevar_to_hint (hint_curr_meta hints_meta))
                (exception_prefix hints_meta)); [|discriminate].
    destruct (sanify_childs sanify_hint_child hints_meta hs) as [xs|];
      [|discriminate].
    intros [= <-]. simpl. f_equal. apply IH. reflexivity.
Qed.

Lemma sanify_childs_Forall2 sanify_hint_child hints_meta hint_childs sane :
  Forall2
    (fun hint_child x =>
       sanify_hint_child hint_child (conf hints_meta) (cls_stack hints_meta)
         (typevar_to_hint (hint_curr_meta hints_meta))
         (exception_prefix hints_meta) = Returned x)
    hint_childs sane ->
  sanify_childs sanify_hint_child hints_meta hint_childs = Returned sane.
Proof.
  induction 1 as [|h x hs xs E _ IH]; simpl; [reflexivity|].
  rewrite E, IH. reflexivity.
Qed.

Lemma flat_map_expand_flat xs :
  forallb (fun c => negb (is_union_child c)) xs = true ->
  flat_map expand_child xs = xs.
Proof.
  induction xs as [|x xs IH]; simpl; [reflexivity|].
  rewrite Bool.andb_true_iff, Bool.negb_true_iff. intros [U H].
  unfold expand_child at 1. rewrite U. simpl. f_equal. apply IH, H.
Qed.

(** X6. A union none of whose sanified children is a union is returned
    as its sanified children, one per child hint and in their order:
    flattening changes nothing then. *)
Theorem union_args_flattened_flat_unchanged sanify_hint_child hints_meta w
  sane :
  memo_ok sanify_hint_child w ->
  get_hint_pep_args (meta_hint (hint_curr_meta hints_meta)) <> [] ->
  Forall2
    (fun hint_child x =>
       sanify_hint_child hint_child (conf hints_meta) (cls_stack hints_meta)
         (typevar_to_hint (hint_curr_meta hints_meta))
         (exception_prefix hints_meta) = Returned x)
    (get_hint_pep_args (meta_hint (hint_curr_meta hints_meta))) sane ->
  forallb (fun c => negb (is_union_child c)) sane = true ->
  fst (_get_hint_pep484604_union_args_flattened sanify_hint_child
         hints_meta w) = Returned sane /\
  List.length sane =
    List.length (get_hint_pep_args (meta_hint (hint_curr_meta hints_meta))).
Proof.
  intros OK NE S0 F.
  pose proof (sanify_childs_Forall2 _ _ _ _ S0) as S.
  split; [|apply (sanify_childs_length _ _ _ _ S)].
  rewrite (fst_getter _ _ _ OK), flattened_value_spec.
  destruct (get_hint_pep_args (meta_hint (hint_curr_meta hints_meta)))
    as [|h hs]; [contradiction|].
  rewrite S, (flat_map_expand_flat _ F). reflexivity.
Qed.

(** [Union[int, str, List[int], List[str]]]. *)
Lemma union_args_flattened_flat_unchanged_witness :
  fst (_get_hint_pep484604_union_args_flattened sanify_plain
         (meta_for union_mixed [] EmptyString) World_empty) =
    Returned [Bare (HClass "int"); Bare (HClass "str");
              Bare (List_of (HClass "int")); Bare (List_of (HClass "str"))] /\
  List.length [Bare (HClass "int"); Bare (HClass "str");
               Bare (List_of (HClass "int")); Bare (List_of (HClass "str"))] =
    List.length
      (get_hint_pep_args
         (meta_hint (hint_curr_meta (meta_for union_mixed [] EmptyString)))).
Proof.
  apply (union_args_flattened_flat_unchanged sanify_plain
           (meta_for union_mixed [] EmptyString) World_empty
           [Bare (HClass "int"); Bare (HClass "str");
            Bare (List_of (HClass "int")); Bare (List_of (HClass "str"))]).
  - intros k v H. discriminate H.
  - discriminate.
  - repeat constructor.
  - reflexivity.
Defined.

(** The children are sanified in order up to the first one that raises,
    whose exception is the result. *)
Lemma sanify_childs_raised sanify_hint_child hints_meta hint_childs e :
  sanify_childs sanify_hint_child hints_meta hint_childs = Raised e ->
  exists before h after,
    hint_childs = before ++ h :: after /\
    (forall g, In g before ->
       exists x, sanify_hint_child g (conf hints_meta) (cls_stack hints_meta)
                   (typevar_to_hint (hint_curr_meta hints_meta))
                   (exception_prefix hints_meta) = Returned x) /\
    sanify_hint_child h (conf hints_meta) (cls_stack hints_meta)
      (typevar_to_hint (hint_curr_meta hints_meta))
      (exception_prefix hints_meta) = Raised e.
Proof.
  induction hint_childs as [|h hs IH]; simpl; [discriminate|].
  destruct (sanify_hint_child h (conf hints_meta) (cls_stack hints_meta)
              (typevar_to_hint (hint_curr_meta hints_meta))
              (exception_prefix hints_meta)) as [x|e'] eqn:S.
  - destruct (sanify_childs sanify_hint_child hints_meta hs) as [xs|e'];
      [discriminate|].
    intros [= ->]. destruct (IH eq_refl) as (before & g & after & -> & B & R).
    exists (h :: before), g, after. repeat split; auto.
    intros g' [<- | I]; eauto.
  - intros [= ->]. exists [], h, hs. repeat split; auto. intros g [].
Qed.

Lemma sanify_childs_returned sanify_hint_child hints_meta hint_childs :
  (forall g, In g hint_childs ->
     exists x, sanify_hint_child g (conf hints_meta) (cls_stack hints_meta)
                 (typevar_to_hint (hint_curr_meta hints_meta))
                 (exception_prefix hints_meta) = Returned x) ->
  exists sane,
    sanify_childs sanify_hint_child hints_meta hint_childs = Returned sane.
Proof.
  induction hint_childs as [|h hs IH]; intros H; simpl; [eauto|].
  destruct (H h (or_introl eq_refl)) as [x ->].
  destruct IH as [xs ->]; [intros g I; apply H; right; exact I|]. eauto.
Qed.

(** X7. When the flattening getter raises, either the union has no child
    hints and the exception is [AssertionError], or the exception is the
    one raised by sanifying a child hint, every child hint before that
    one having been sanified; and the getter returns whenever the union
    has child hints and each of them sanifies. *)
Theorem union_args_flattened_raises_first sanify_hint_child hints_meta w :
  memo_ok sanify_hint_child w ->
  (forall e,
     fst (_get_hint_pep484604_union_args_flattened sanify_hint_child
            hints_meta w) = Raised e ->
     (get_hint_pep_args (meta_hint (hint_curr_meta hints_meta)) = [] /\
      e = AssertionError) \/
     (exists before h after,
        get_hint_pep_args (meta_hint (hint_curr_meta hints_meta)) =
          before ++ h :: after /\
        (forall g, In g before ->
           exists x,
             sanify_hint_child g (conf hints_meta) (cls_stack hints_meta)
               (typevar_to_hint (hint_curr_meta hints_meta))
               (exception_prefix hints_meta) = Returned x) /\
        sanify_hint_child h (conf hints_meta) (cls_stack hints_meta)
          (typevar_to_hint (hint_curr_meta hints_meta))
          (exception_prefix hints_meta) = Raised e)) /\
  (get_hint_pep_args (meta_hint (hint_curr_meta hints_meta)) <> [] ->
   (forall g,
      In g (get_hint_pep_args (meta_hint (hint_curr_meta hints_meta))) ->
      exists x,
        sanify_hint_child g (conf hints_meta) (cls_stack hints_meta)
          (typevar_to_hint (hint_curr_meta hints_meta))
          (exception_prefix hints_meta) = Returned x) ->
   exists childs,
     fst (_get_hint_pep484604_union_args_flattened sanify_hint_child
            hints_meta w) = Returned childs).
Proof.
  intros OK. rewrite (fst_getter _ _ _ OK), flattened_value_spec.
  destruct (get_hint_pep_args (meta_hint (hint_curr_meta hints_meta)))
    as [|h hs] eqn:A.
  - split; [|contradiction]. intros e [= <-]. left. auto.
  - split.
    + intros e E. right.
      destruct (sanify_childs sanify_hint_child hints_meta (h :: hs))
        as [xs|e'] eqn:S; [discriminate|].
      injection E as ->. apply (sanify_childs_raised _ _ _ _ S).
    + intros _ H.
      destruct (sanify_childs_returned sanify_hint_child hints_meta
                  (h :: hs) H) as [sane ->].
      eauto.
Qed.

(** [Union[int, Unsupported]] under the sample sanifier. *)
Lemma union_args_flattened_raises_first_witness :
  let m := meta_for union_unsupported [] EmptyString in
  (forall e,
     fst (_get_hint_pep484604_union_args_flattened sanify_sample m
            World_empty) = Raised e ->
     (get_hint_pep_args (meta_hint (hint_curr_meta m)) = [] /\
      e = AssertionError) \/
     (exists before h after,
        get_hint_pep_args (meta_hint (hint_curr_meta m)) =
          before ++ h :: after /\
        (forall g, In g before ->
           exists x,
             sanify_sample g (conf m) (cls_stack m)
               (typevar_to_hint (hint_curr_meta m))
               (exception_prefix m) = Returned x) /\
        sanify_sample h (conf m) (cls_stack m)
          (typevar_to_hint (hint_curr_meta m))
          (exception_prefix m) = Raised e)) /\
  (get_hint_pep_args (meta_hint (hint_curr_meta m)) <> [] ->
   (forall g,
      In g (get_hint_pep_args (meta_hint (hint_curr_meta m))) ->
      exists x,
        sanify_sample g (conf m) (cls_stack m)
          (typevar_to_hint (hint_curr_meta m))
          (exception_prefix m) = Returned x) ->
   exists childs,
     fst (_get_hint_pep484604_union_args_flattened sanify_sample m
            World_empty) = Returned childs).
Proof.
  intros m.
  apply (union_args_flattened_raises_first sanify_sample m World_empty).
  intros k v H. discriminate H.
Defined.

Lemma existsb_same_members {A} (f : A -> bool) l1 l2 :
  (forall x, In x l1 <-> In x l2) -> existsb f l1 = existsb f l2.
Proof.
  intros H. apply Bool.eq_true_iff_eq. rewrite !existsb_exists.
  split; intros (x & I & F); exists x; split; auto; apply H; exact I.
Qed.

(** X8. The check emitted for a union depends on which flattened children
    it has, not on their order, on repetitions among them or on the rest
    of the metadata: two unions whose flattened tuples have the same
    members get checks that accept the same values, namely the values
    that satisfy one of the children. *)
Theorem union_code_order_independent sanify_hint_child m1 w1 cs1 m2 w2 cs2 :
  memo_ok sanify_hint_child w1 ->
  memo_ok sanify_hint_child w2 ->
  fst (_get_hint_pep484604_union_args_flattened sanify_hint_child m1 w1)
    = Returned cs1 ->
  fst (_get_hint_pep484604_union_args_flattened sanify_hint_child m2 w2)
    = Returned cs2 ->
  cs1 <> [] ->
  (forall c, In c cs1 <-> In c cs2) ->
  exists m1' m2',
    fst (make_hint_pep484604_check_expr sanify_hint_child m1 w1)
      = Returned m1' /\
    fst (make_hint_pep484604_check_expr sanify_hint_child m2 w2)
      = Returned m2' /\
    forall (value : Type) (isinstance : value -> string -> bool)
           (sat_pep : string -> list hint -> TypeVarToHint -> value -> bool)
           (v : value),
      code_check isinstance sat_pep m1' v =
        Some (satisfies_any isinstance sat_pep cs1 v) /\
      code_check isinstance sat_pep m2' v =
        code_check isinstance sat_pep m1' v.
Proof.
  intros OK1 OK2 F1 F2 NE Same.
  rewrite (fst_getter _ _ _ OK1) in F1.
  rewrite (fst_getter _ _ _ OK2) in F2.
  exists (generated cs1 m1), (generated cs2 m2).
  split; [apply (fst_make _ _ _ _ OK1 F1)|].
  split; [apply (fst_make _ _ _ _ OK2 F2)|].
  intros value isinstance sat_pep v.
  assert (NE2 : cs2 <> []).
  { destruct cs1 as [|c cs1]; [contradiction|]. intros ->.
    destruct (proj1 (Same c) (or_introl eq_refl)). }
  rewrite (code_check_generated isinstance sat_pep cs1 m1 v NE).
  rewrite (code_check_generated isinstance sat_pep cs2 m2 v NE2).
  split; [reflexivity|]. f_equal. unfold satisfies_any.
  apply existsb_same_members. intros x. symmetry. apply Same.
Qed.

(** [Union[int, str, float]] against [Union[int, Union[str, float]]],
    which flattens to the same children. *)
Lemma union_code_order_independent_witness :
  let m1 := meta_for union_flat [] "parameter x" in
  let m2 := meta_for union_nested [] "return" in
  exists m1' m2',
    fst (make_hint_pep484604_check_expr sanify_plain m1 World_empty)
      = Returned m1' /\
    fst (make_hint_pep484604_check_expr sanify_plain m2 World_empty)
      = Returned m2' /\
    forall (value : Type) (isinstance : value -> string -> bool)
           (sat_pep : string -> list hint -> TypeVarToHint -> value -> bool)
           (v : value),
      code_check isinstance sat_pep m1' v =
        Some (satisfies_any isinstance sat_pep
                [Bare (HClass "int"); Bare (HClass "str");
                 Bare (HClass "float")] v) /\
      code_check isinstance sat_pep m2' v =
        code_check isinstance sat_pep m1' v.
Proof.
  intros m1 m2.
  apply (union_code_order_independent sanify_plain m1 World_empty
           [Bare (HClass "int"); Bare (HClass "str"); Bare (HClass "float")]
           m2 World_empty
           [Bare (HClass "int"); Bare (HClass "str"); Bare (HClass "float")]).
  - intros k v H. discriminate H.
  - intros k v H. discriminate H.
  - reflexivity.
  - reflexivity.
  - discriminate.
  - intros c. reflexivity.
Defined.

Lemma pep_children_passed pep : forall idx nonpep i j,
  Forall (fun c => child_indent_level c = i /\
                   child_pith_var_name_index c = j)
    (pep_children idx pep nonpep i j).
Proof.
  induction pep as [|c pep IH]; intros; simpl; constructor; auto.
Qed.

Lemma union_snippets_placeholders nonpep pep n i :
  In (CODE_PEP484604_UNION_CHILD_PEP i) (union_snippets nonpep pep n) <->
  n <= i < n + List.length pep.
Proof.
  unfold union_snippets. rewrite in_app_iff, in_map_iff. split.
  - intros [H | (x & [= ->] & I)].
    + destruct (truthy nonpep); [destruct H as [H | []]; discriminate H|].
      destruct H.
    + apply in_seq in I. exact I.
  - intros H. right. exists i. split; [reflexivity|]. apply in_seq. exact H.
Qed.

(** X9. The factory only appends to the queue of hints to be visited. For
    a union whose flattening returns, the queue it leaves is the queue it
    found followed by new entries, one for each distinct PEP-compliant
    child among the flattened children and none for any other hint, each
    carrying the indentation level and the pith variable index of the
    metadata; the placeholders in the code are exactly the positions of
    these new entries; and the hint, configuration, class stack, exception
    prefix and indentation of the metadata are left as they were. Nothing
    is said of the order of the new entries. *)
Theorem union_code_appends_to_queue sanify_hint_child hints_meta w childs :
  memo_ok sanify_hint_child w ->
  fst (_get_hint_pep484604_union_args_flattened sanify_hint_child
         hints_meta w) = Returned childs ->
  exists hints_meta' appended,
    fst (make_hint_pep484604_check_expr sanify_hint_child hints_meta w)
      = Returned hints_meta' /\
    enqueued hints_meta' = enqueued hints_meta ++ appended /\
    NoDup (map child_hint_or_sane appended) /\
    (forall c,
       In c (map child_hint_or_sane appended) <->
       In c childs /\ is_hint_pep (get_hint_or_sane_hint c) = true) /\
    Forall (fun c =>
              child_indent_level c = indent_level_child hints_meta /\
              child_pith_var_name_index c =
                pith_curr_var_name_index hints_meta) appended /\
    (forall i,
       In (CODE_PEP484604_UNION_CHILD_PEP i)
          (code_snippets (func_curr_code hints_meta')) <->
       List.length (enqueued hints_meta) <= i
         < List.length (enqueued hints_meta')) /\
    hint_curr_meta hints_meta' = hint_curr_meta hints_meta /\
    conf hints_meta' = conf hints_meta /\
    cls_stack hints_meta' = cls_stack hints_meta /\
    exception_prefix hints_meta' = exception_prefix hints_meta /\
    indent_curr hints_meta' = indent_curr hints_meta /\
    indent_level_child hints_meta' = indent_level_child hints_meta /\
    pith_curr_var_name_index hints_meta' =
      pith_curr_var_name_index hints_meta.
Proof.
  intros OK FV.
  rewrite (fst_getter _ _ _ OK) in FV.
  destruct (filter_childs childs [] []) as [nonpep pep] eqn:F.
  destruct (filter_childs_pep _ _ _ _ _ F (NoDup_nil _)) as [ND Mem].
  exists (generated childs hints_meta),
    (pep_children 0 pep nonpep (indent_level_child hints_meta)
       (pith_curr_var_name_index hints_meta)).
  split; [apply (fst_make _ _ _ _ OK FV)|].
  rewrite (code_snippets_generated _ hints_meta _ _ F).
  rewrite (generated_spec _ hints_meta _ _ F).
  cbn [enqueued hint_curr_meta conf cls_stack exception_prefix indent_curr
       indent_level_child pith_curr_var_name_index].
  split; [reflexivity|].
  rewrite pep_children_hints.
  split; [exact ND|].
  split.
  { intros c. rewrite Mem. simpl. tauto. }
  split; [apply pep_children_passed|].
  split; [|repeat split; reflexivity].
  intros i. rewrite union_snippets_placeholders, length_app,
              pep_children_length. reflexivity.
Qed.

(** [Union[int, str, List[int], List[str]]] with two hints already
    queued. *)
Lemma union_code_appends_to_queue_witness :
  let queued :=
    {| child_hint_or_sane := Bare (HClass "bytes");
       child_indent_level := 1;
       child_pith_expr := pith_curr_expr;
       child_pith_var_name_index := 0 |} in
  let m :=
    {| hint_curr_meta := {| meta_hint := union_mixed; typevar_to_hint := [] |};
       conf := conf_default;
       cls_stack := None;
       exception_prefix := "return";
       indent_curr := "    ";
       indent_level_child := 2;
       pith_curr_var_name_index := 3;
       func_curr_code := CODE_PEP484604_UNION_PREFIX;
       enqueued := [queued; queued] |} in
  let childs :=
    [Bare (HClass "int"); Bare (HClass "str");
     Bare (List_of (HClass "int")); Bare (List_of (HClass "str"))] in
  exists hints_meta' appended,
    fst (make_hint_pep484604_check_expr sanify_plain m World_empty)
      = Returned hints_meta' /\
    enqueued hints_meta' = enqueued m ++ appended /\
    NoDup (map child_hint_or_sane appended) /\
    (forall c,
       In c (map child_hint_or_sane appended) <->
       In c childs /\ is_hint_pep (get_hint_or_sane_hint c) = true) /\
    Forall (fun c =>
              child_indent_level c = indent_level_child m /\
              child_pith_var_name_index c = pith_curr_var_name_index m)
      appended /\
    (forall i,
       In (CODE_PEP484604_UNION_CHILD_PEP i)
          (code_snippets (func_curr_code hints_meta')) <->
       List.length (enqueued m) <= i < List.length (enqueued hints_meta')) /\
    hint_curr_meta hints_meta' = hint_curr_meta m /\
    conf hints_meta' = conf m /\
    cls_stack hints_meta' = cls_stack m /\
    exception_prefix hints_meta' = exception_prefix m /\
    indent_curr hints_meta' = indent_curr m /\
    indent_level_child hints_meta' = indent_level_child m /\
    pith_curr_var_name_index hints_meta' = pith_curr_var_name_index m.
Proof.
  intros queued m childs.
  apply (union_code_appends_to_queue sanify_plain m World_empty childs).
  - intros k v H. discriminate H.
  - reflexivity.
Defined.

End UnionMoreFacts.

(* ===================================================================== *)
(** * More facts: [IsAttr] *)
(* ===================================================================== *)

Module ValeMoreFacts.
Import Vale ValeInv ValeFacts.

(** A well-named subscription by a validator returns the validator whose
    [is_valid] is the closure over the name and that validator. *)
Lemma IsAttr_returns attr_name validator :
  is_named_pair (ATuple [AObject (PStr attr_name); AValidator validator])
    = true ->
  exists subscripted,
    IsAttr___class_getitem__
      (ATuple [AObject (PStr attr_name); AValidator validator])
      = Returned subscripted /\
    is_valid subscripted = IsAttr_is_valid attr_name validator.
Proof.
  intros N. unfold is_named_pair in N. rewrite !Bool.andb_true_iff in N.
  destruct N as [[N1 N2] N3]. apply Bool.negb_true_iff in N1, N2.
  eexists. split.
  - unfold IsAttr___class_getitem__. cbn [List.length Nat.eqb negb].
    rewrite N1, N2, N3. cbn [negb]. reflexivity.
  - reflexivity.
Qed.

(** X10. Attribute validators nest: subscripting [IsAttr] by a name and
    the validator [IsAttr[inner_name, validator]] returns a validator
    that is true of an object exactly when the object has the outer
    attribute, the value of that attribute has the inner attribute, and
    the validator accepts the inner value; an attribute missing at either
    level gives false, not an exception. *)
Theorem IsAttr_nested outer_name inner_name validator :
  is_named_pair (ATuple [AObject (PStr outer_name); AValidator validator])
    = true ->
  is_named_pair (ATuple [AObject (PStr inner_name); AValidator validator])
    = true ->
  exists inner outer,
    IsAttr___class_getitem__
      (ATuple [AObject (PStr inner_name); AValidator validator])
      = Returned inner /\
    IsAttr___class_getitem__
      (ATuple [AObject (PStr outer_name); AValidator inner])
      = Returned outer /\
    forall p,
      (is_valid outer p = true <->
       getattr p outer_name SENTINEL <> SENTINEL /\
       getattr (getattr p outer_name SENTINEL) inner_name SENTINEL
         <> SENTINEL /\
       is_valid validator
         (getattr (getattr p outer_name SENTINEL) inner_name SENTINEL)
         = true) /\
      (hasattr p outer_name = false -> is_valid outer p = false) /\
      (hasattr (getattr p outer_name SENTINEL) inner_name = false ->
       is_valid outer p = false).
Proof.
  intros No Ni.
  destruct (IsAttr_returns inner_name validator Ni) as (inner & Ei & Vi).
  destruct (IsAttr_returns outer_name inner No) as (outer & Eo & Vo).
  exists inner, outer. split; [exact Ei|]. split; [exact Eo|].
  intros p. rewrite Vo. split; [|split].
  - rewrite IsAttr_is_valid_iff, Vi, IsAttr_is_valid_iff. tauto.
  - intros H. unfold IsAttr_is_valid. rewrite (getattr_missing _ _ H).
    reflexivity.
  - intros H. unfold IsAttr_is_valid at 1. rewrite Vi.
    unfold IsAttr_is_valid at 1. rewrite (getattr_missing _ _ H).
    apply Bool.andb_false_r.
Qed.

(** [IsAttr['dtype', IsAttr['ndim', IsEqual[2]]]]. *)
Lemma IsAttr_nested_witness :
  exists inner outer,
    IsAttr___class_getitem__
      (ATuple [AObject (PStr "ndim"); AValidator IsEqual_2])
      = Returned inner /\
    IsAttr___class_getitem__
      (ATuple [AObject (PStr "dtype"); AValidator inner])
      = Returned outer /\
    forall p,
      (is_valid outer p = true <->
       getattr p "dtype" SENTINEL <> SENTINEL /\
       getattr (getattr p "dtype" SENTINEL) "ndim" SENTINEL <> SENTINEL /\
       is_valid IsEqual_2
         (getattr (getattr p "dtype" SENTINEL) "ndim" SENTINEL) = true) /\
      (hasattr p "dtype" = false -> is_valid outer p = false) /\
      (hasattr (getattr p "dtype" SENTINEL) "ndim" = false ->
       is_valid outer p = false).
Proof.
  apply (IsAttr_nested "dtype" "ndim" IsEqual_2); reflexivity.
Defined.

End ValeMoreFacts.

(* ===================================================================== *)
(** * Facts: [GenericTypeHint._is_subhint_branch] *)
(* ===================================================================== *)

Module DoorFacts.
Import Door.

Lemma all_zip_spec le xs : forall ys,
  all_zip le xs ys = true <->
  (forall i x y, nth_error xs i = Some x -> nth_error ys i = Some y ->
                 le x y = true).
Proof.
  induction xs as [|x xs IH]; intros ys.
  - simpl. split; [|reflexivity]. intros _ [|i] a b H; discriminate H.
  - destruct ys as [|y ys].
    + simpl. split; [|reflexivity]. intros _ [|i] a b _ H; discriminate H.
    + simpl. destruct (le x y) eqn:L.
      * rewrite IH. split.
        -- intros H [|i] a b Ha Hb; simpl in *.
           ++ congruence.
           ++ eapply H; eauto.
        -- intros H i a b Ha Hb. apply (H (S i)); assumption.
      * split; [discriminate|]. intros H.
        rewrite <- L. apply (H 0); reflexivity.
Qed.

(** X11. A generic is a subhint of a branch exactly when its origin type
    is a subclass of the branch's and either the branch's arguments are
    ignorable or every child of the generic is a subhint of the child of
    the branch at the same position, for as many positions as both have:
    children beyond the shorter of the two tuples are not compared. In
    particular an unsubscripted generic, which has no children, is a
    subhint of every branch whose origin is a superclass, subscripted or
    not. *)
Theorem GenericTypeHint_subhint_common_positions issubclass le self branch :
  (_is_subhint_branch issubclass le self branch = true <->
   issubclass (_origin self) (_origin branch) = true /\
   (_is_args_ignorable branch = true \/
    forall i x y,
      nth_error (_args_wrapped_tuple self) i = Some x ->
      nth_error (_args_wrapped_tuple branch) i = Some y ->
      le x y = true)) /\
  (_args_wrapped_tuple self = [] ->
   _is_subhint_branch issubclass le self branch =
   issubclass (_origin self) (_origin branch)).
Proof.
  unfold _is_subhint_branch. split.
  - destruct (issubclass (_origin self) (_origin branch)); cbn [negb].
    + destruct (_is_args_ignorable branch).
      * split; auto.
      * rewrite all_zip_spec. split.
        -- intros H. split; [reflexivity|]. right. exact H.
        -- intros [_ [H | H]]; [discriminate | exact H].
    + split; [discriminate|]. intros [H _]. discriminate.
  - intros ->.
    destruct (issubclass (_origin self) (_origin branch)); cbn [negb];
      [|reflexivity].
    destruct (_is_args_ignorable branch); reflexivity.
Qed.

(** [MuhGeneric] against [MuhGeneric[int]]. *)
Lemma GenericTypeHint_subhint_common_positions_witness :
  (_is_subhint_branch issubclass_sample le_sample MuhGeneric
     (MuhGeneric_of "int") = true <->
   issubclass_sample (_origin MuhGeneric) (_origin (MuhGeneric_of "int"))
     = true /\
   (_is_args_ignorable (MuhGeneric_of "int") = true \/
    forall i x y,
      nth_error (_args_wrapped_tuple MuhGeneric) i = Some x ->
      nth_error (_args_wrapped_tuple (MuhGeneric_of "int")) i = Some y ->
      le_sample x y = true)) /\
  (_args_wrapped_tuple MuhGeneric = [] ->
   _is_subhint_branch issubclass_sample le_sample MuhGeneric
     (MuhGeneric_of "int") =
   issubclass_sample (_origin MuhGeneric) (_origin (MuhGeneric_of "int"))).
Proof.
  apply (GenericTypeHint_subhint_common_positions issubclass_sample
           le_sample MuhGeneric (MuhGeneric_of "int")).
Defined.

(** The unsubscripted [MuhGeneric] is reported as a subhint of
    [MuhGeneric[int]], and [MuhGeneric[int]] as none of
    [MuhGeneric[str]]. *)
Example MuhGeneric_subhint_samples :
  _is_subhint_branch issubclass_sample le_sample MuhGeneric
    (MuhGeneric_of "int") = true /\
  _is_subhint_branch issubclass_sample le_sample (MuhGeneric_of "int")
    (MuhGeneric_of "str") = false /\
  _is_subhint_branch issubclass_sample le_sample (MuhGeneric_of "int")
    MuhGeneric = true.
Proof. repeat split. Qed.

End DoorFacts.
